(** * MaoGo address registry (api.py): model and verified properties

    The development follows [src/api.py]:
    - Python string helpers used by the code generator ([str.split],
      [str.lower], [str.upper], [str.zfill], [str] of an integer);
    - the code generator of [insert_address] (lines 141-152);
    - the [addresses] table with its UNIQUE constraint on [codigo], the SQL
      statements the handlers issue (LIKE, ORDER BY ... DESC, LIMIT) and what
      [sqlite3] does with the values bound to them;
    - the handlers [get_addresses], [get_address], [get_sectors],
      [insert_address], [insert_campo], [update_address] and [estimate_ride].

    A Python [str] is modelled by [string], one character per code point.
    The code generator is modelled on ASCII text (code points below 128), on
    which Python's case mapping and whitespace test agree with the functions
    below.  The search of [get_addresses] is modelled on the code points
    below 256, which include the accented capitals that Python lower-cases
    and SQLite does not.  The literals of the source that hold an accented
    letter or a middle dot (the details of the HTTP errors, the summary of an
    estimate) are written as the source writes them; they are only ever
    compared for equality. *)

From Stdlib Require Import List String Ascii Bool NArith ZArith Lia.
From Stdlib Require Import Permutation Sorted.
From Stdlib Require Import PrimFloat FloatOps FloatAxioms SpecFloat.
From Stdlib Require Import Reals Lra.
Import ListNotations.

Open Scope string_scope.
Open Scope N_scope.

(** ** Python string helpers *)

(** [str.isspace] on one ASCII character: TAB, LF, VT, FF, CR, the four
    separators FS, GS, RS, US, and the space. *)
Definition isspace (c : ascii) : bool :=
  let n := N_of_ascii c in
  ((9 <=? n) && (n <=? 13)) || ((28 <=? n) && (n <=? 32)).

Definition is_upper_letter (c : ascii) : bool :=
  let n := N_of_ascii c in (65 <=? n) && (n <=? 90).

Definition is_lower_letter (c : ascii) : bool :=
  let n := N_of_ascii c in (97 <=? n) && (n <=? 122).

Definition is_digit (c : ascii) : bool :=
  let n := N_of_ascii c in (48 <=? n) && (n <=? 57).

Definition lower_char (c : ascii) : ascii :=
  if is_upper_letter c then ascii_of_N (N_of_ascii c + 32) else c.

Definition upper_char (c : ascii) : ascii :=
  if is_lower_letter c then ascii_of_N (N_of_ascii c - 32) else c.

Fixpoint str_map (f : ascii -> ascii) (s : string) : string :=
  match s with
  | EmptyString => EmptyString
  | String c s' => String (f c) (str_map f s')
  end.

(** [s.lower()] and [s.upper()]. *)
Definition lower (s : string) : string := str_map lower_char s.
Definition upper (s : string) : string := str_map upper_char s.

Fixpoint str_forallb (p : ascii -> bool) (s : string) : bool :=
  match s with
  | EmptyString => true
  | String c s' => p c && str_forallb p s'
  end.

(** [s[:n]]. *)
Fixpoint str_take (n : nat) (s : string) : string :=
  match n, s with
  | S n', String c s' => String c (str_take n' s')
  | _, _ => EmptyString
  end.

(** [sep.join(l)] with the empty separator. *)
Fixpoint join_empty (l : list string) : string :=
  match l with
  | [] => EmptyString
  | s :: l' => s ++ join_empty l'
  end.

(** [s.split()]: maximal runs of non-whitespace characters, in order.
    [w] holds the characters of the token being read. *)
Fixpoint split_from (w : string) (s : string) : list string :=
  match s with
  | EmptyString => match w with EmptyString => [] | _ => [w] end
  | String c s' =>
      if isspace c
      then match w with
           | EmptyString => split_from EmptyString s'
           | _ => w :: split_from EmptyString s'
           end
      else split_from (w ++ String c EmptyString) s'
  end.

Definition split (s : string) : list string := split_from EmptyString s.

(** [str(n)] for a non-negative integer: decimal digits, most significant
    first, no leading zero except for [0] itself.  The fuel, one more than
    the binary logarithm of [n], bounds the number of decimal digits. *)
Definition digit_char (d : N) : ascii := ascii_of_N (48 + d).

Fixpoint str_digits (fuel : nat) (n : N) (acc : string) : string :=
  match fuel with
  | O => acc
  | S fuel' =>
      let acc' := String (digit_char (n mod 10)) acc in
      if n <? 10 then acc' else str_digits fuel' (n / 10) acc'
  end.

Definition str_of_N (n : N) : string :=
  str_digits (S (N.to_nat (N.log2 n))) n EmptyString.

Fixpoint zeros (k : nat) : string :=
  match k with
  | O => EmptyString
  | S k' => String "0" (zeros k')
  end.

(** [s.zfill(width)]: left-pads with ['0'] up to [width] characters, after a
    leading sign if there is one; a string already that long is returned
    unchanged. *)
Definition zfill (width : nat) (s : string) : string :=
  let pad := zeros (width - String.length s) in
  match s with
  | String c rest =>
      if (Ascii.eqb c "+" || Ascii.eqb c "-")%bool
      then String c (pad ++ rest)
      else pad ++ s
  | EmptyString => pad
  end.

(** ** Code generator ([insert_address], lines 141-152) *)

Definition stop_words : list string := ["de"; "del"; "la"; "el"; "los"; "las"; "y"].

Definition in_stop_words (w : string) : bool := existsb (String.eqb w) stop_words.

(** [[w for w in sector.split() if w.lower() not in stop_words]] *)
Definition sector_words (sector : string) : list string :=
  filter (fun w => negb (in_stop_words (lower w))) (split sector).

(** [w[0].upper()]; the tokens produced by [split] are never empty, so the
    empty case is never reached from [abbreviation]. *)
Definition initial_upper (w : string) : string :=
  match w with
  | EmptyString => EmptyString
  | String c _ => String (upper_char c) EmptyString
  end.

(** ["".join(w[0].upper() for w in words)[:5] if words else "XXX"] *)
Definition abbreviation (sector : string) : string :=
  match sector_words sector with
  | [] => "XXX"
  | words => str_take 5 (join_empty (map initial_upper words))
  end.

(** [prefix = f"VG-MAO-{abbr}-"] *)
Definition code_prefix (sector : string) : string :=
  "VG-MAO-" ++ abbreviation sector ++ "-".

(** Lines 146-150.  [count_like pattern] stands for
    [SELECT COUNT( * ) FROM addresses WHERE codigo LIKE pattern]. *)
Definition generate_codigo (count_like : string -> N) (sector : string) : string :=
  let prefix := code_prefix sector in
  let count := count_like (prefix ++ "%") in
  prefix ++ zfill 5 (str_of_N (count + 1)).

(** The five-digit, zero-padded decimal numeral of [n]: one digit for each of
    the positions 10^4 .. 10^0. *)
Definition spec_five_digits (n : N) : string :=
  String (digit_char (n / 10000 mod 10))
    (String (digit_char (n / 1000 mod 10))
       (String (digit_char (n / 100 mod 10))
          (String (digit_char (n / 10 mod 10))
             (String (digit_char (n mod 10)) EmptyString)))).

(** The pattern [VG-MAO-<1 to 5 uppercase letters>-<5 digits>]. *)
Fixpoint strip_prefix (p s : string) : option string :=
  match p, s with
  | EmptyString, _ => Some s
  | String a p', String b s' => if Ascii.eqb a b then strip_prefix p' s' else None
  | String _ _, EmptyString => None
  end.

(** Splits [s] at its first ['-']. *)
Fixpoint break_dash (s : string) : option (string * string) :=
  match s with
  | EmptyString => None
  | String c s' =>
      if Ascii.eqb c "-" then Some (EmptyString, s')
      else match break_dash s' with
           | Some (a, b) => Some (String c a, b)
           | None => None
           end
  end.

Definition matches_code_pattern (code : string) : bool :=
  match strip_prefix "VG-MAO-" code with
  | None => false
  | Some rest =>
      match break_dash rest with
      | None => false
      | Some (abbr, seq) =>
          (1 <=? String.length abbr)%nat && (String.length abbr <=? 5)%nat
          && str_forallb is_upper_letter abbr
          && (String.length seq =? 5)%nat && str_forallb is_digit seq
      end
  end.

(** The abbreviation as section 4.1 of the specification words it: split on
    whitespace, drop the tokens whose lowercase form is a stop word, take the
    first character of each remaining token in uppercase, concatenate, keep
    at most five characters; ["XXX"] when no token remains. *)
Definition spec_abbreviation (sector : string) : string :=
  let remaining :=
    filter (fun t => negb (existsb (String.eqb (lower t)) stop_words)) (split sector) in
  match remaining with
  | [] => "XXX"
  | _ => str_take 5 (join_empty (map (fun t => upper (str_take 1 t)) remaining))
  end.


(** ** The [addresses] table and the request models *)

(** Three states of an optional request field of [AddressUpdate]: not sent
    (dropped by [dict(exclude_unset=True)]), sent as [null], or sent with a
    value. *)
Inductive patch (A : Type) : Type :=
| Unset
| Null
| Value (a : A).
Arguments Unset {A}.
Arguments Null {A}.
Arguments Value {A} a.

Definition patch_map {A B : Type} (f : A -> B) (p : patch A) : patch B :=
  match p with
  | Unset => Unset
  | Null => Null
  | Value a => Value (f a)
  end.

(** The columns a request can name, in the order the models declare them. *)
Inductive column : Type :=
| Codigo | Provincia | Municipio | Sector | Calle | Numero | Referencia
| Lat | Lng | Verificado | Fuente | Creado_por | Notas.

(** A stored value: NULL, TEXT, REAL or INTEGER. *)
Inductive cell (F : Type) : Type :=
| CNull
| CText (s : string)
| CReal (x : F)
| CInt (n : Z).
Arguments CNull {F}.
Arguments CText {F} s.
Arguments CReal {F} x.
Arguments CInt {F} n.

Definition cell_of {F A : Type} (f : A -> cell F) (o : option A) : cell F :=
  match o with
  | Some a => f a
  | None => CNull
  end.

(** [class Address(BaseModel)], after pydantic has filled in the defaults.
    [F] is the type of Python floats. *)
Module Address.
Record t (F : Type) : Type := mk {
  codigo : option string;
  provincia : option string;
  municipio : option string;
  sector : string;
  calle : option string;
  numero : option string;
  referencia : option string;
  lat : F;
  lng : F;
  verificado : option Z;
  fuente : option string;
  creado_por : option string;
  notas : option string
}.
Arguments mk {F}.
Arguments codigo {F}.
Arguments provincia {F}.
Arguments municipio {F}.
Arguments sector {F}.
Arguments calle {F}.
Arguments numero {F}.
Arguments referencia {F}.
Arguments lat {F}.
Arguments lng {F}.
Arguments verificado {F}.
Arguments fuente {F}.
Arguments creado_por {F}.
Arguments notas {F}.

(** A request that sends only the required fields. *)
Definition minimal {F : Type} (sector : string) (lat lng : F) : t F :=
  mk None (Some "Valverde") (Some "Mao") sector None None None lat lng
     (Some 0%Z) (Some "equipo") (Some "API") None.
End Address.

(** [class AddressUpdate(BaseModel)]. *)
Module AddressUpdate.
Record t (F : Type) : Type := mk {
  codigo : string;
  provincia : patch string;
  municipio : patch string;
  sector : patch string;
  calle : patch string;
  numero : patch string;
  referencia : patch string;
  lat : patch F;
  lng : patch F;
  verificado : patch Z;
  fuente : patch string;
  creado_por : patch string;
  notas : patch string
}.
Arguments mk {F}.
Arguments codigo {F}.
Arguments provincia {F}.
Arguments municipio {F}.
Arguments sector {F}.
Arguments calle {F}.
Arguments numero {F}.
Arguments referencia {F}.
Arguments lat {F}.
Arguments lng {F}.
Arguments verificado {F}.
Arguments fuente {F}.
Arguments creado_por {F}.
Arguments notas {F}.

(** The request field behind each column. *)
Definition get {F : Type} (c : column) (u : t F) : patch (cell F) :=
  match c with
  | Codigo => Value (CText (codigo u))
  | Provincia => patch_map CText (provincia u)
  | Municipio => patch_map CText (municipio u)
  | Sector => patch_map CText (sector u)
  | Calle => patch_map CText (calle u)
  | Numero => patch_map CText (numero u)
  | Referencia => patch_map CText (referencia u)
  | Lat => patch_map CReal (lat u)
  | Lng => patch_map CReal (lng u)
  | Verificado => patch_map CInt (verificado u)
  | Fuente => patch_map CText (fuente u)
  | Creado_por => patch_map CText (creado_por u)
  | Notas => patch_map CText (notas u)
  end.

(** A request that sends only the required [codigo]. *)
Definition empty {F : Type} (codigo : string) : t F :=
  mk codigo Unset Unset Unset Unset Unset Unset Unset Unset Unset Unset Unset Unset.
End AddressUpdate.

(** One row of [addresses].  [fecha_creacion] is the CURRENT_TIMESTAMP default,
    a fixed-width text whose order is the order of the instants; it is kept as
    the number of seconds. *)
Module Row.
Record t (F : Type) : Type := mk {
  id : N;
  codigo : string;
  provincia : option string;
  municipio : option string;
  sector : option string;
  calle : option string;
  numero : option string;
  referencia : option string;
  lat : option F;
  lng : option F;
  verificado : option Z;
  fuente : option string;
  creado_por : option string;
  notas : option string;
  fecha_creacion : N
}.
Arguments mk {F}.
Arguments id {F}.
Arguments codigo {F}.
Arguments provincia {F}.
Arguments municipio {F}.
Arguments sector {F}.
Arguments calle {F}.
Arguments numero {F}.
Arguments referencia {F}.
Arguments lat {F}.
Arguments lng {F}.
Arguments verificado {F}.
Arguments fuente {F}.
Arguments creado_por {F}.
Arguments notas {F}.
Arguments fecha_creacion {F}.

(** The value stored in a column. *)
Definition get {F : Type} (c : column) (r : t F) : cell F :=
  match c with
  | Codigo => CText (codigo r)
  | Provincia => cell_of CText (provincia r)
  | Municipio => cell_of CText (municipio r)
  | Sector => cell_of CText (sector r)
  | Calle => cell_of CText (calle r)
  | Numero => cell_of CText (numero r)
  | Referencia => cell_of CText (referencia r)
  | Lat => cell_of CReal (lat r)
  | Lng => cell_of CReal (lng r)
  | Verificado => cell_of CInt (verificado r)
  | Fuente => cell_of CText (fuente r)
  | Creado_por => cell_of CText (creado_por r)
  | Notas => cell_of CText (notas r)
  end.
End Row.

(** The table: its rows in insertion order. *)
Definition table (F : Type) : Type := list (Row.t F).

(** ** Case-insensitive substrings *)

(** [q] matches the beginning of [s], the ASCII letters compared without
    case and every other character exactly. *)
Fixpoint ci_prefix (q s : string) : bool :=
  match q, s with
  | EmptyString, _ => true
  | String a q', String b s' =>
      Ascii.eqb (lower_char a) (lower_char b) && ci_prefix q' s'
  | String _ _, EmptyString => false
  end.

(** [q] occurs somewhere in [s], compared in the same way. *)
Fixpoint ci_substring (q s : string) : bool :=
  ci_prefix q s
  || match s with
     | EmptyString => false
     | String _ s' => ci_substring q s'
     end.


(** The query contains no NUL character. *)
Definition no_nul (q : string) : bool :=
  str_forallb (fun c => negb (Ascii.eqb c Ascii.zero)) q.

(** [str.lower] on one code point below 256: the ASCII capitals and the
    accented capitals U+00C0 to U+00DE, the multiplication sign U+00D7
    excepted, move up by 32. *)
Definition py_lower_char (c : ascii) : ascii :=
  let n := N_of_ascii c in
  if ((65 <=? n) && (n <=? 90)) || ((192 <=? n) && (n <=? 222) && negb (n =? 215))
  then ascii_of_N (n + 32)
  else c.

(** [q.lower()] in [get_addresses]. *)
Definition py_lower (s : string) : string := str_map py_lower_char s.

(** The number of bytes of the UTF-8 encoding: one for a code point below
    128, two for the others below 256. *)
Fixpoint utf8_length (s : string) : N :=
  match s with
  | EmptyString => 0
  | String c s' => (if N_of_ascii c <? 128 then 1 else 2) + utf8_length s'
  end.

(** [c * n]. *)
Fixpoint str_repeat (n : nat) (c : ascii) : string :=
  match n with
  | O => EmptyString
  | S n' => String c (str_repeat n' c)
  end.






(** ** What [sqlite3] does with bound values *)

(** A Python [int] is bound as a signed 64-bit integer: outside that range
    [execute] raises [OverflowError] while binding, before the statement
    runs. *)
Definition fits_int64 (n : Z) : bool :=
  ((- 2 ^ 63 <=? n) && (n <? 2 ^ 63))%Z.

(** A nullable integer parameter; [None] is bound as NULL. *)
Definition binds_int (o : option Z) : bool :=
  match o with
  | Some n => fits_int64 n
  | None => true
  end.

(** What a REAL column holds after a Python [float] was written to it:
    SQLite stores a NaN as NULL ([None] here) and gives [0.0] back for
    [-0.0]; a value read from the column is stored as itself. *)
Class SqliteReal (F : Type) : Type := {
  bind_real : F -> option F;
  bind_real_stored : forall x y : F, bind_real x = Some y -> bind_real y = Some y
}.

(** Binary64, the representation of a Python [float] and of a REAL column. *)
Definition float_bind_real (x : float) : option float :=
  if PrimFloat.is_nan x then None
  else if PrimFloat.eqb x 0 then Some 0%float
  else Some x.

#[export] Instance float_real : SqliteReal float.
Proof.
  refine {| bind_real := float_bind_real |}.
  intros x y. unfold float_bind_real.
  destruct (PrimFloat.is_nan x) eqn:En; [discriminate|].
  destruct (PrimFloat.eqb x 0) eqn:Ez; intros H; injection H as <-.
  - reflexivity.
  - now rewrite En, Ez.
Defined.

(** ** The SQL the handlers issue *)

(** The text LIKE reads: SQLite takes the pattern and the text as C strings,
    which end at the first NUL character. *)
Fixpoint c_string (s : string) : string :=
  match s with
  | EmptyString => EmptyString
  | String c s' => if Ascii.eqb c Ascii.zero then EmptyString else String c (c_string s')
  end.

(** The comparison LIKE makes by default: [%] matches any run of characters,
    [_] exactly one, every other character itself, with the ASCII letters
    compared without case; there is no escape character. *)
Fixpoint like_match (pattern : string) : string -> bool :=
  match pattern with
  | EmptyString => fun text => match text with EmptyString => true | _ => false end
  | String p pattern' =>
      if Ascii.eqb p "%" then
        fix any_run (text : string) : bool :=
          like_match pattern' text
          || match text with
             | EmptyString => false
             | String _ text' => any_run text'
             end
      else if Ascii.eqb p "_" then
        fun text =>
          match text with
          | EmptyString => false
          | String _ text' => like_match pattern' text'
          end
      else
        fun text =>
          match text with
          | EmptyString => false
          | String c text' =>
              Ascii.eqb (lower_char p) (lower_char c) && like_match pattern' text'
          end
  end.

(** [text LIKE pattern], for a pattern of at most 50000 bytes. *)
Definition sql_like (pattern text : string) : bool :=
  like_match (c_string pattern) (c_string text).

(** A longer pattern makes LIKE fail with "LIKE or GLOB pattern too complex"
    ([sqlite3.OperationalError]) on the first row it is evaluated on; the
    length is that of the whole bound text, whatever it contains. *)
Definition pattern_too_long (pattern : string) : bool :=
  50000 <? utf8_length pattern.

(** [LOWER(x) LIKE pattern] on a nullable column: NULL never satisfies the
    WHERE clause.  [LOWER] folds the ASCII letters only. *)
Definition lower_like (pattern : string) (x : option string) : bool :=
  match x with
  | Some s => sql_like pattern (lower s)
  | None => false
  end.

(** [LIMIT n]: a negative [n] means no limit. *)
Definition sql_limit {A : Type} (n : Z) (l : list A) : list A :=
  if (n <? 0)%Z then l else firstn (Z.to_nat n) l.

(** An exception that no handler catches; the request is answered with
    status 500. *)
Inductive exn : Type :=
| TypeError
| OverflowError.

(** How a write handler ends: with an exception nobody catches, or with the
    [HTTPException] it raises.  Neither handler returns.  After the commit the
    handler reads the row back with [dict(cur.fetchone())]; [cur] was created
    before [conn.row_factory] was set, a cursor keeps the row factory its
    connection had when it was created, so the row is a plain tuple, whose
    first element is the integer [id], and [dict] raises [TypeError]. *)
Inductive outcome : Type :=
| Raises (e : exn)
| HTTPException (status_code : Z) (detail : string).

(** What a read handler answers: the returned value, the 404 it raises, or an
    exception it does not catch. *)
Inductive response (A : Type) : Type :=
| Returns (a : A)
| NotFound (detail : string)
| Unhandled.
Arguments Returns {A} a.
Arguments NotFound {A} detail.
Arguments Unhandled {A}.

Section Statements.
Context {F : Type} {SR : SqliteReal F}.

(** [SELECT COUNT( * ) FROM addresses WHERE codigo LIKE ?] *)
Definition count_like (db : table F) (pattern : string) : N :=
  N.of_nat (List.length (filter (fun r => sql_like pattern (Row.codigo r)) db)).

(** [SELECT * FROM addresses WHERE codigo = ?], first row. *)
Definition select_by_codigo (codigo : string) (db : table F) : option (Row.t F) :=
  find (fun r => String.eqb (Row.codigo r) codigo) db.

(** The code is stored. *)
Definition is_stored (codigo : string) (db : table F) : bool :=
  match select_by_codigo codigo db with
  | Some _ => true
  | None => false
  end.

(** The rowid an AUTOINCREMENT key gives to the next row: one more than the
    largest one in use (rows are never deleted). *)
Definition next_id (db : table F) : N :=
  fold_right (fun r m => N.max (Row.id r) m) 0 db + 1.

(** [ORDER BY fecha_creacion DESC]; rows of equal [fecha_creacion] stay in
    table order. *)
Fixpoint insert_desc (r : Row.t F) (l : list (Row.t F)) : list (Row.t F) :=
  match l with
  | [] => [r]
  | x :: l' =>
      if Row.fecha_creacion x <? Row.fecha_creacion r
      then r :: x :: l'
      else x :: insert_desc r l'
  end.

Definition order_by_fecha_desc (l : list (Row.t F)) : list (Row.t F) :=
  fold_left (fun acc r => insert_desc r acc) l [].

(** *** [get_addresses] (lines 90-109) *)

(** The WHERE clause of the filtered query, [pattern] being
    [f"%{q.lower()}%"]. *)
Definition search_where (pattern : string) (r : Row.t F) : bool :=
  lower_like pattern (Row.sector r)
  || lower_like pattern (Row.calle r)
  || lower_like pattern (Row.referencia r)
  || lower_like pattern (Some (Row.codigo r)).

(** [limit: int = 500]: [None] is an omitted query parameter. *)
Definition limit_or_default (limit : option Z) : Z :=
  match limit with
  | Some n => n
  | None => 500%Z
  end.

(** The filtered query evaluates LIKE on a row unless the table is empty or
    the limit is 0, in which case SQLite reads no row. *)
Definition reads_a_row (limit : Z) (db : table F) : bool :=
  negb (limit =? 0)%Z && match db with [] => false | _ => true end.

(** [if q:] is false for an omitted and for an empty [q].  A limit outside
    64 bits raises [OverflowError] when it is bound, a pattern that is too
    long [sqlite3.OperationalError] when the statement runs; the handler
    catches neither. *)
Definition get_addresses (q : option string) (limit : option Z) (db : table F)
  : response (list (Row.t F)) :=
  let limit := limit_or_default limit in
  if negb (fits_int64 limit) then Unhandled
  else
    match q with
    | None | Some EmptyString => Returns (sql_limit limit (order_by_fecha_desc db))
    | Some q =>
        let pattern := "%" ++ py_lower q ++ "%" in
        if pattern_too_long pattern && reads_a_row limit db then Unhandled
        else Returns (sql_limit limit
                        (order_by_fecha_desc (filter (search_where pattern) db)))
    end.

(** *** The search as the specification words it *)

(** The record matches: the query is a case-insensitive substring of its
    sector, street, reference or code; a NULL field contains nothing. *)
Definition field_contains (q : string) (x : option string) : bool :=
  match x with
  | Some s => ci_substring q s
  | None => false
  end.

Definition spec_matches (q : option string) (r : Row.t F) : bool :=
  match q with
  | None => true
  | Some q =>
      field_contains q (Row.sector r)
      || field_contains q (Row.calle r)
      || field_contains q (Row.referencia r)
      || field_contains q (Some (Row.codigo r))
  end.

(** The same test on what LIKE reads of each field: its text before the
    first NUL character. *)
Definition text_matches (q : option string) (r : Row.t F) : bool :=
  match q with
  | None => true
  | Some q =>
      field_contains q (option_map c_string (Row.sector r))
      || field_contains q (option_map c_string (Row.calle r))
      || field_contains q (option_map c_string (Row.referencia r))
      || field_contains q (Some (c_string (Row.codigo r)))
  end.

(** Most recent first. *)
Definition newer_or_equal (x y : Row.t F) : Prop :=
  Row.fecha_creacion y <= Row.fecha_creacion x.

(** *** [insert_address] (lines 135-175) *)

(** Lines 141-152: [if not address.codigo] holds for a missing and for an
    empty [codigo].  [count_like] is the COUNT query of line 148. *)
Definition insert_codigo (count_like : string -> N) (address : Address.t F) : string :=
  match Address.codigo address with
  | None | Some EmptyString => generate_codigo count_like (Address.sector address)
  | Some codigo => codigo
  end.

(** The row written by the INSERT statement; [now] is CURRENT_TIMESTAMP.
    The coordinates are held as a REAL column holds them. *)
Definition inserted_row (now : N) (codigo : string) (address : Address.t F)
    (db : table F) : Row.t F :=
  Row.mk (next_id db) codigo
    (Address.provincia address) (Address.municipio address)
    (Some (Address.sector address))
    (Address.calle address) (Address.numero address) (Address.referencia address)
    (bind_real (Address.lat address)) (bind_real (Address.lng address))
    (Address.verificado address)
    (Address.fuente address) (Address.creado_por address) (Address.notas address)
    now.

(** The parameters of the INSERT are bound first: a [verificado] outside
    64 bits raises [OverflowError] and nothing is written.  Then the UNIQUE
    constraint on [codigo] makes the INSERT raise [sqlite3.IntegrityError]
    when the code is already stored, which the handler turns into status 400;
    nothing is written then either.  Otherwise the row is committed and the
    read-back raises [TypeError]. *)
Definition insert_address (now : N) (address : Address.t F) (db : table F)
  : outcome * table F :=
  let codigo := insert_codigo (count_like db) address in
  if negb (binds_int (Address.verificado address)) then (Raises OverflowError, db)
  else
    match select_by_codigo codigo db with
    | Some _ => (HTTPException 400 "El código ya existe", db)
    | None => (Raises TypeError, (db ++ [inserted_row now codigo address db])%list)
    end.

(** *** [update_address] (lines 182-218) *)

(** One [column = ?] of the dynamic UPDATE together with its bound value. *)
Definition assignment : Type := column * cell F.

(** The loop of lines 198-201 for one item of
    [address.dict(exclude_unset=True)]. *)
Definition item_assignment (address : AddressUpdate.t F) (field : column)
  : list assignment :=
  match field, AddressUpdate.get field address with
  | Codigo, _ => []
  | _, Value v => [(field, v)]
  | _, _ => []
  end.

Definition model_fields : list column :=
  [Codigo; Provincia; Municipio; Sector; Calle; Numero; Referencia;
   Lat; Lng; Verificado; Fuente; Creado_por; Notas].

(** [updates] and [values] after the loop. *)
Definition update_assignments (address : AddressUpdate.t F) : list assignment :=
  flat_map (item_assignment address) model_fields.

(** The value can be bound: an integer has to fit in 64 bits. *)
Definition binds (v : cell F) : bool :=
  match v with
  | CInt n => fits_int64 n
  | _ => true
  end.

(** What a column holds after [v] was written to it. *)
Definition stored (v : cell F) : cell F :=
  match v with
  | CReal x => cell_of CReal (bind_real x)
  | _ => v
  end.

Definition as_text (v : cell F) : option string :=
  match v with CText s => Some s | _ => None end.
Definition as_real (v : cell F) : option F :=
  match v with CReal x => bind_real x | _ => None end.
Definition as_int (v : cell F) : option Z :=
  match v with CInt n => Some n | _ => None end.

(** [SET column = v] on one row.  The values come from a validated
    [AddressUpdate], so a TEXT column receives a [CText], a REAL column a
    [CReal], held afterwards as the column holds it, and the INTEGER column a
    [CInt]. *)
Definition set_column (a : assignment) (r : Row.t F) : Row.t F :=
  let (c, v) := a in
  let 'Row.mk i cod prov mun sec cal num ref la ln ver fue cre nota fec := r in
  match c with
  | Codigo => Row.mk i (match v with CText s => s | _ => cod end)
                prov mun sec cal num ref la ln ver fue cre nota fec
  | Provincia => Row.mk i cod (as_text v) mun sec cal num ref la ln ver fue cre nota fec
  | Municipio => Row.mk i cod prov (as_text v) sec cal num ref la ln ver fue cre nota fec
  | Sector => Row.mk i cod prov mun (as_text v) cal num ref la ln ver fue cre nota fec
  | Calle => Row.mk i cod prov mun sec (as_text v) num ref la ln ver fue cre nota fec
  | Numero => Row.mk i cod prov mun sec cal (as_text v) ref la ln ver fue cre nota fec
  | Referencia => Row.mk i cod prov mun sec cal num (as_text v) la ln ver fue cre nota fec
  | Lat => Row.mk i cod prov mun sec cal num ref (as_real v) ln ver fue cre nota fec
  | Lng => Row.mk i cod prov mun sec cal num ref la (as_real v) ver fue cre nota fec
  | Verificado => Row.mk i cod prov mun sec cal num ref la ln (as_int v) fue cre nota fec
  | Fuente => Row.mk i cod prov mun sec cal num ref la ln ver (as_text v) cre nota fec
  | Creado_por => Row.mk i cod prov mun sec cal num ref la ln ver fue (as_text v) nota fec
  | Notas => Row.mk i cod prov mun sec cal num ref la ln ver fue cre (as_text v) fec
  end.

(** The SET clause on one row, assignment after assignment. *)
Definition apply_updates (updates : list assignment) (r : Row.t F) : Row.t F :=
  fold_left (fun r a => set_column a r) updates r.

(** [UPDATE addresses SET ... WHERE codigo = ?] *)
Definition sql_update (updates : list assignment) (codigo : string) (db : table F)
  : table F :=
  map (fun r => if String.eqb (Row.codigo r) codigo then apply_updates updates r else r)
      db.

(** The values of the UPDATE are bound when it is executed, after the two
    checks: a [verificado] outside 64 bits raises [OverflowError] and nothing
    is written.  Otherwise the UPDATE is committed and the read-back raises
    [TypeError]. *)
Definition update_address (codigo : string) (address : AddressUpdate.t F)
    (db : table F) : outcome * table F :=
  match select_by_codigo codigo db with
  | None => (HTTPException 404 "Dirección no encontrada", db)
  | Some _ =>
      match update_assignments address with
      | [] => (HTTPException 400 "No hay campos para actualizar", db)
      | updates =>
          if forallb (fun a => binds (snd a)) updates
          then (Raises TypeError, sql_update updates codigo db)
          else (Raises OverflowError, db)
      end
  end.

(** *** Sequences of writes *)

Inductive request : Type :=
| Insert (now : N) (address : Address.t F)
| Update (codigo : string) (address : AddressUpdate.t F).

Definition handle (db : table F) (rq : request) : table F :=
  match rq with
  | Insert now address => snd (insert_address now address db)
  | Update codigo address => snd (update_address codigo address db)
  end.

(** The table after serving the requests in order, starting from [db]. *)
Definition serve (rqs : list request) (db : table F) : table F :=
  fold_left handle rqs db.

(** A column the request sets: present, not null, and not [codigo]. *)
Definition applicable (address : AddressUpdate.t F) (c : column) : bool :=
  match c, AddressUpdate.get c address with
  | Codigo, _ => false
  | _, Value _ => true
  | _, _ => false
  end.

(** A coordinate is NULL or a value that a REAL column holds. *)
Definition real_held (x : option F) : Prop :=
  match x with
  | Some y => bind_real y = Some y
  | None => True
  end.

(** Both coordinates of the row are. *)
Definition row_held (r : Row.t F) : Prop :=
  real_held (Row.lat r) /\ real_held (Row.lng r).

(** Every stored [verificado] fits in 64 bits. *)
Definition row_int64 (r : Row.t F) : bool := binds_int (Row.verificado r).
End Statements.

Arguments request : clear implicits.

(** ** [estimate_ride] (lines 220-265) *)

(** [str(n)] for any integer. *)
Definition str_of_Z (n : Z) : string :=
  if (n <? 0)%Z then String "-" (str_of_N (Z.abs_N n)) else str_of_N (Z.to_N n).

(** Python's float arithmetic and the [math] functions the handler calls.
    They belong to the interpreter and the C library, so they are taken as an
    interface.  An operation that can raise ([ValueError] outside the domain
    of [math.sin], [math.cos], [math.asin], [math.sqrt];
    [ZeroDivisionError]; [OverflowError]; [int] and [round] of a NaN or an
    infinity) returns [None] when it raises.  [sqlite_text] is the text as
    which SQLite compares a bound float with a TEXT column; a NaN is bound as
    NULL and has none. *)
Class PyFloat (F : Type) : Type := {
  of_int : Z -> F;
  fneg : F -> F;
  fadd : F -> F -> F;
  fsub : F -> F -> F;
  fmul : F -> F -> F;
  fdiv : F -> F -> option F;
  fpow : F -> Z -> option F;
  radians : F -> F;
  fsin : F -> option F;
  fcos : F -> option F;
  fasin : F -> option F;
  fsqrt : F -> option F;
  round_to : F -> Z -> F;
  round_int : F -> option Z;
  int_of : F -> option Z;
  repr : F -> string;
  sqlite_text : F -> option string
}.

(** The sign test [x < 0.0] and [math.floor], with which the specification
    words the minutes. *)
Class PyFloatOrder (F : Type) : Type := {
  below_zero : F -> bool;
  floor_of : F -> option Z
}.

(** The response of [estimate_ride]: the returned dict. *)
Module Estimate.
Record t (F : Type) : Type := mk {
  distance_km : F;
  estimated_minutes : Z;
  estimated_fare_rdp : F;
  summary : string
}.
Arguments mk {F}.
Arguments distance_km {F}.
Arguments estimated_minutes {F}.
Arguments estimated_fare_rdp {F}.
Arguments summary {F}.
End Estimate.

(** A value of the request body [data], an untyped [dict]: what
    [data.get(key)] gives.  An absent key gives [None], as a JSON null
    does. *)
Inductive json (F : Type) : Type :=
| JNull
| JBool (b : bool)
| JInt (n : Z)
| JFloat (x : F)
| JString (s : string)
| JArray
| JObject.
Arguments JNull {F}.
Arguments JBool {F} b.
Arguments JInt {F} n.
Arguments JFloat {F} x.
Arguments JString {F} s.
Arguments JArray {F}.
Arguments JObject {F}.

Declare Scope py_scope.
Notation "x <- e ;; k" :=
  (match e with Some x => k | None => None end)
  (at level 61, e at next level, right associativity) : py_scope.

Section Fare.
Context {F : Type} {PF : PyFloat F}.
Local Open Scope py_scope.

(** The value bound to [codigo = ?].  [None]: binding raises, with
    [OverflowError] for an integer outside 64 bits and
    [sqlite3.ProgrammingError] for a list or a dict.  [Some None]: NULL, which
    no [codigo] equals.  [Some (Some t)]: a value that is compared with the
    TEXT column as the text [t]; [True] and [False] are the integers 1 and
    0. *)
Definition code_param (codigo : json F) : option (option string) :=
  match codigo with
  | JNull => Some None
  | JBool b => Some (Some (if b then "1" else "0"))
  | JInt n => if fits_int64 n then Some (Some (str_of_Z n)) else None
  | JFloat x => Some (sqlite_text x)
  | JString s => Some (Some s)
  | JArray | JObject => None
  end.

(** [SELECT lat, lng FROM addresses WHERE codigo = ?], first row, for a
    parameter that was bound. *)
Definition select_lat_lng (codigo : option string) (db : table F)
  : option (option F * option F) :=
  match codigo with
  | None => None
  | Some c =>
      match select_by_codigo c db with
      | Some r => Some (Row.lat r, Row.lng r)
      | None => None
      end
  end.

(** [math.radians(x)]; a NULL coordinate makes it raise [TypeError]. *)
Definition radians_of (x : option F) : option F :=
  match x with
  | Some v => Some (radians v)
  | None => None
  end.

(** Lines 241-250. *)
Definition haversine_km (pickup dropoff : option F * option F) : option F :=
  lat1 <- radians_of (fst pickup) ;;
  lng1 <- radians_of (snd pickup) ;;
  lat2 <- radians_of (fst dropoff) ;;
  lng2 <- radians_of (snd dropoff) ;;
  let dlat := fsub lat2 lat1 in
  let dlng := fsub lng2 lng1 in
  half_dlat <- fdiv dlat (of_int 2) ;;
  sin_dlat <- fsin half_dlat ;;
  sq_dlat <- fpow sin_dlat 2 ;;
  cos1 <- fcos lat1 ;;
  cos2 <- fcos lat2 ;;
  half_dlng <- fdiv dlng (of_int 2) ;;
  sin_dlng <- fsin half_dlng ;;
  sq_dlng <- fpow sin_dlng 2 ;;
  let a := fadd sq_dlat (fmul (fmul cos1 cos2) sq_dlng) in
  root <- fsqrt a ;;
  angle <- fasin root ;;
  let c := fmul (of_int 2) angle in
  Some (fmul (of_int 6371) c).

(** Lines 252-265. *)
Definition fare_of (distance_km : F) : option (Estimate.t F) :=
  let fare := fadd (of_int 75) (fmul distance_km (of_int 35)) in
  hours <- fdiv distance_km (of_int 25) ;;
  minutes <- int_of (fmul hours (of_int 60)) ;;
  rounded_fare <- round_int fare ;;
  Some (Estimate.mk
          (round_to distance_km 2)
          (Z.max 3 minutes)
          (round_to fare 2)
          (repr (round_to distance_km 1) ++ " km · ~"
             ++ str_of_Z (Z.max 3 minutes) ++ " min · RD$"
             ++ str_of_Z rounded_fare)).

(** The two SELECTs run first, each binding its code; the 404 is raised
    after both. *)
Definition estimate_ride (pickup_codigo dropoff_codigo : json F)
    (db : table F) : response (Estimate.t F) :=
  match code_param pickup_codigo, code_param dropoff_codigo with
  | Some pickup_param, Some dropoff_param =>
      match select_lat_lng pickup_param db, select_lat_lng dropoff_param db with
      | Some pickup, Some dropoff =>
          match haversine_km pickup dropoff with
          | Some distance_km =>
              match fare_of distance_km with
              | Some result => Returns result
              | None => Unhandled
              end
          | None => Unhandled
          end
      | _, _ => NotFound "Dirección no encontrada"
      end
  | _, _ => Unhandled
  end.

(** *** The estimate as section 4.3 of the specification words it *)

Context {PO : PyFloatOrder F}.

(** [sin²(x)]. *)
Definition spec_sin_sq (x : F) : option F :=
  s <- fsin x ;; fpow s 2.

(** [a = sin²(Δlat/2) + cos(lat1)·cos(lat2)·sin²(Δlng/2)],
    [c = 2·asin(√a)], [distanceKm = R·c] with [R = 6371], for two points
    given in degrees. *)
Definition spec_distance_km (p1 p2 : F * F) : option F :=
  let lat1 := radians (fst p1) in
  let lng1 := radians (snd p1) in
  let lat2 := radians (fst p2) in
  let lng2 := radians (snd p2) in
  half_dlat <- fdiv (fsub lat2 lat1) (of_int 2) ;;
  half_dlng <- fdiv (fsub lng2 lng1) (of_int 2) ;;
  sq_dlat <- spec_sin_sq half_dlat ;;
  sq_dlng <- spec_sin_sq half_dlng ;;
  cos1 <- fcos lat1 ;;
  cos2 <- fcos lat2 ;;
  root <- fsqrt (fadd sq_dlat (fmul (fmul cos1 cos2) sq_dlng)) ;;
  angle <- fasin root ;;
  Some (fmul (of_int 6371) (fmul (of_int 2) angle)).

(** [minutes = floor(distanceKm / 25 * 60)], clamped to a minimum of 3. *)
Definition spec_minutes (distance_km : F) : option Z :=
  hours <- fdiv distance_km (of_int 25) ;;
  minutes <- floor_of (fmul hours (of_int 60)) ;;
  Some (Z.max 3 minutes).

(** [fare = 75 + distanceKm * 35]. *)
Definition spec_fare (distance_km : F) : F :=
  fadd (of_int 75) (fmul distance_km (of_int 35)).

(** The four values of the estimate: the distance and the fare rounded to 2
    decimals, the minutes, and the summary made of the distance rounded to 1
    decimal, the minutes and the fare rounded to 0 decimals. *)
Definition spec_estimate (p1 p2 : F * F) : option (Estimate.t F) :=
  distance_km <- spec_distance_km p1 p2 ;;
  minutes <- spec_minutes distance_km ;;
  whole_fare <- round_int (spec_fare distance_km) ;;
  Some (Estimate.mk
          (round_to distance_km 2)
          minutes
          (round_to (spec_fare distance_km) 2)
          (repr (round_to distance_km 1) ++ " km · ~"
             ++ str_of_Z minutes ++ " min · RD$"
             ++ str_of_Z whole_fare)).
End Fare.

(** Sign symmetries of the float interface, as IEEE-754 arithmetic has them
    (rounding is symmetric around zero, [x - x] is [+0] in both orders) and as
    the C library's sine has them. *)
Class PyFloatLaws (F : Type) {PF : PyFloat F} : Prop := {
  fsub_swap : forall x y : F, fsub y x = fneg (fsub x y) \/ fsub y x = fsub x y;
  fdiv_fneg : forall x y : F, fdiv (fneg x) y = option_map fneg (fdiv x y);
  fsin_fneg : forall x : F, fsin (fneg x) = option_map fneg (fsin x);
  fpow_fneg_2 : forall x : F, fpow (fneg x) 2 = fpow x 2;
  fmul_comm : forall x y : F, fmul x y = fmul y x
}.

(** What the operations do to values that are not below zero, as IEEE-754
    arithmetic, [math.sqrt], the C library's arc sine, [int] and [math.floor]
    do; a NaN and [-0.0] are not below zero.  A non-negative integer converts
    to such a value; products and quotients of such values, every square root
    and the arc sine of such a value are such values; on them [int], which
    truncates, is [math.floor], and both raise on a NaN or an infinity. *)
Class PyFloatOrderLaws (F : Type) {PF : PyFloat F} {PO : PyFloatOrder F} : Prop := {
  of_int_sign : forall n : Z, (0 <= n)%Z -> below_zero (of_int n) = false;
  fmul_sign : forall x y : F,
    below_zero x = false -> below_zero y = false -> below_zero (fmul x y) = false;
  fdiv_sign : forall x y z : F,
    fdiv x y = Some z -> below_zero x = false -> below_zero y = false ->
    below_zero z = false;
  fsqrt_sign : forall x y : F, fsqrt x = Some y -> below_zero y = false;
  fasin_sign : forall x y : F,
    fasin x = Some y -> below_zero x = false -> below_zero y = false;
  int_of_floor : forall x : F, below_zero x = false -> int_of x = floor_of x
}.

(** ** The other handlers *)

(** The order of [ORDER BY sector]: NULL first, then the texts by their
    characters, a proper prefix before its extensions. *)
Definition sector_compare (x y : option string) : comparison :=
  match x, y with
  | None, None => Eq
  | None, Some _ => Lt
  | Some _, None => Gt
  | Some a, Some b => String.compare a b
  end.

(** One more value in an ascending list without repetitions. *)
Fixpoint insert_distinct (x : option string) (l : list (option string))
  : list (option string) :=
  match l with
  | [] => [x]
  | y :: l' =>
      match sector_compare x y with
      | Lt => x :: y :: l'
      | Eq => y :: l'
      | Gt => y :: insert_distinct x l'
      end
  end.

Section Reads.
Context {F : Type} {SR : SqliteReal F}.

(** [get_address] (lines 111-123). *)
Definition get_address (codigo : string) (db : table F) : response (Row.t F) :=
  match select_by_codigo codigo db with
  | Some row => Returns row
  | None => NotFound "Dirección no encontrada"
  end.

(** [get_sectors] (lines 125-133):
    [SELECT DISTINCT sector FROM addresses ORDER BY sector]; the value of each
    returned [{"sector": ...}]. *)
Definition get_sectors (db : table F) : list (option string) :=
  fold_left (fun acc r => insert_distinct (Row.sector r) acc) db [].

(** [insert_campo] (lines 177-180). *)
Definition insert_campo (now : N) (address : Address.t F) (db : table F)
  : outcome * table F :=
  insert_address now address db.

(** What identifies a stored record and never changes: id, code and creation
    time. *)
Definition row_identity (r : Row.t F) : N * string * N :=
  (Row.id r, Row.codigo r, Row.fecha_creacion r).

End Reads.

(** The number a string of decimal digits denotes, continuing from [acc]. *)
Fixpoint decimal_value (acc : N) (s : string) : N :=
  match s with
  | EmptyString => acc
  | String c s' => decimal_value (10 * acc + (N_of_ascii c - 48)) s'
  end.

(** ** Geographic ranges of coordinates *)

(** Coordinates as binary64 floats. *)
Definition lat_in_range (x : float) : bool :=
  (PrimFloat.leb (-90) x && PrimFloat.leb x 90)%float.

Definition lng_in_range (x : float) : bool :=
  (PrimFloat.leb (-180) x && PrimFloat.leb x 180)%float.

(** A stored row has both coordinates, each within its range. *)
Definition row_in_range (r : Row.t float) : bool :=
  match Row.lat r, Row.lng r with
  | Some la, Some ln => lat_in_range la && lng_in_range ln
  | _, _ => false
  end.

Definition patch_holds {A : Type} (p : A -> bool) (x : patch A) : bool :=
  match x with
  | Value a => p a
  | _ => true
  end.

(** A request whose coordinates, where it carries any, are within range. *)
Definition request_in_range (rq : request float) : bool :=
  match rq with
  | Insert _ address =>
      lat_in_range (Address.lat address) && lng_in_range (Address.lng address)
  | Update _ address =>
      patch_holds lat_in_range (AddressUpdate.lat address)
      && patch_holds lng_in_range (AddressUpdate.lng address)
  end.

(** An assignment to a coordinate carries a value within its range. *)
Definition assignment_in_range (a : column * cell float) : Prop :=
  match a with
  | (Lat, v) => exists x, v = CReal x /\ lat_in_range x = true
  | (Lng, v) => exists x, v = CReal x /\ lng_in_range x = true
  | _ => True
  end.

(** ** Exact real arithmetic as an instance of the float interface

    The real numbers with the exact operations satisfy the laws assumed of
    the interface, which shows that the laws can be satisfied together.  They
    are not the arithmetic of the program: nothing here rounds, and no
    operation meets an infinity or a NaN. *)

Module RealArith.
Local Open Scope R_scope.

(** The largest integer not above [x]. *)
Definition floor (x : R) : Z := Int_part x.

(** Nearest integer, ties to the even one, as [round] does. *)
Definition round_half_even (x : R) : Z :=
  let n := floor x in
  let r := x - IZR n in
  if Rlt_dec r (1 / 2) then n
  else if Rlt_dec (1 / 2) r then (n + 1)%Z
  else if Z.even n then n else (n + 1)%Z.

Definition trunc (x : R) : Z :=
  if Rle_dec 0 x then floor x else (- floor (- x))%Z.

(** One decimal place. *)
Definition repr_real (x : R) : string :=
  let m := Rabs x in
  ((if Rlt_dec x 0 then "-" else "")
     ++ str_of_Z (floor m) ++ "." ++ str_of_Z (floor (m * 10) mod 10))%string.

#[export] Instance real_float : PyFloat R := {|
  of_int := IZR;
  fneg := Ropp;
  fadd := Rplus;
  fsub := Rminus;
  fmul := Rmult;
  fdiv := fun x y => if Req_dec_T y 0 then None else Some (x / y);
  fpow := fun x n =>
    if Req_dec_T x 0 then (if (n <? 0)%Z then None else Some (powerRZ x n))
    else Some (powerRZ x n);
  radians := fun x => x * (PI / 180);
  fsin := fun x => Some (sin x);
  fcos := fun x => Some (cos x);
  fasin := fun x =>
    if Rle_dec (-1) x then (if Rle_dec x 1 then Some (asin x) else None) else None;
  fsqrt := fun x => if Rle_dec 0 x then Some (sqrt x) else None;
  round_to := fun x n => IZR (round_half_even (x * powerRZ 10 n)) / powerRZ 10 n;
  round_int := fun x => Some (round_half_even x);
  int_of := fun x => Some (trunc x);
  repr := repr_real;
  sqlite_text := fun x => Some (repr_real x)
|}.

#[export] Instance real_order : PyFloatOrder R := {|
  below_zero := fun x => if Rlt_dec x 0 then true else false;
  floor_of := fun x => Some (floor x)
|}.

(** Every real number is stored as it is. *)
#[export] Instance real_stored : SqliteReal R := {|
  bind_real := Some;
  bind_real_stored := fun (x y : R) (_ : Some x = Some y) => eq_refl
|}.
End RealArith.

(** ** Sample data *)

Definition sample_address : Address.t float :=
  Address.minimal "Centro" 18.5%float (-71.75)%float.

(** The table after one insert at instant 100: a single row with the
    generated code ["VG-MAO-C-00001"]. *)
Definition sample_db : table float := snd (insert_address 100 sample_address []).

(** Two inserts, the second one a second later. *)
Definition sample_db2 : table float :=
  serve [Insert 100 sample_address;
         Insert 101 (Address.minimal "Los Jardines" 18.75%float (-71.5)%float)]
    [].

(** The two addresses of the golden example of the specification, with real
    coordinates. *)
Definition sample_real_db : table R :=
  @serve R RealArith.real_stored
    [Insert 100 (Address.minimal "Centro" 18.4432%R (-71.7533)%R);
     Insert 101 (Address.minimal "Los Jardines" 18.45%R (-71.76)%R)]
    [].

(** The sector "Éxito": its first character is the code point 201. *)
Definition exito : string := String "201" "xito".

Definition e_acute_small : string := String "233" "".

(** One address of the sector "Éxito". *)
Definition accent_db : table float :=
  serve [Insert 100 (Address.minimal exito 18.5%float (-71.75)%float)] [].



(** A query of 49999 letters: the pattern built from it has 50001 bytes. *)
Definition long_query : string := str_repeat (N.to_nat 49999) "a".

(** An address registered with a NaN latitude, and a second address. *)
Definition nan_db : table float :=
  serve [Insert 100 (Address.minimal "Centro" PrimFloat.nan (-71.75)%float);
         Insert 101 (Address.minimal "Los Jardines" 18.75%float (-71.5)%float)]
    [].

(** * Properties *)

Example split_example :
  split "  Sector Los   Jardines " = ["Sector"; "Los"; "Jardines"].
Proof. reflexivity. Qed.

Example abbreviation_example : abbreviation "Sector Los Jardines" = "SJ".
Proof. reflexivity. Qed.

Example generate_example :
  generate_codigo (fun _ => 6) "Sector Los Jardines" = "VG-MAO-SJ-00007".
Proof. reflexivity. Qed.

Example generate_overflow :
  generate_codigo (fun _ => 99999) "Centro" = "VG-MAO-C-100000".
Proof. vm_compute. reflexivity. Qed.

Example generate_stop_only : generate_codigo (fun _ => 0) "de la y" = "VG-MAO-XXX-00001".
Proof. reflexivity. Qed.

Example pattern_ok : matches_code_pattern "VG-MAO-SJ-00007" = true.
Proof. reflexivity. Qed.

(** [lia] also decides goals with division and remainder by a constant. *)
Ltac Zify.zify_post_hook ::= Z.to_euclidean_division_equations.

(** ** Strings *)

Lemma append_assoc' (a b c : string) : (a ++ b) ++ c = a ++ (b ++ c).
Proof. induction a as [|x a IH]; simpl; [reflexivity | now rewrite IH]. Qed.

Lemma length_append (a b : string) :
  String.length (a ++ b) = (String.length a + String.length b)%nat.
Proof. induction a as [|x a IH]; simpl; [reflexivity | now rewrite IH]. Qed.

Lemma str_forallb_append (p : ascii -> bool) (a b : string) :
  str_forallb p (a ++ b) = str_forallb p a && str_forallb p b.
Proof.
  induction a as [|x a IH]; simpl; [reflexivity|].
  now rewrite IH, andb_assoc.
Qed.

(** ** Decimal numerals *)

Lemma digit_cases (d : N) :
  d < 10 ->
  d = 0 \/ d = 1 \/ d = 2 \/ d = 3 \/ d = 4 \/ d = 5 \/ d = 6 \/ d = 7 \/ d = 8 \/ d = 9.
Proof. lia. Qed.

Lemma digit_char_is_digit (d : N) : d < 10 -> is_digit (digit_char d) = true.
Proof.
  intros H; destruct (digit_cases d H) as [?|[?|[?|[?|[?|[?|[?|[?|[?|?]]]]]]]]];
    subst; reflexivity.
Qed.

Lemma digit_char_not_sign (d : N) :
  d < 10 ->
  (Ascii.eqb (digit_char d) "+" || Ascii.eqb (digit_char d) "-")%bool = false.
Proof.
  intros H; destruct (digit_cases d H) as [?|[?|[?|[?|[?|[?|[?|[?|[?|?]]]]]]]]];
    subst; reflexivity.
Qed.

Lemma str_digits_acc (fuel : nat) (n : N) (acc : string) :
  str_digits fuel n acc = str_digits fuel n "" ++ acc.
Proof.
  revert n acc; induction fuel as [|fuel IH]; intros n acc; simpl; [reflexivity|].
  destruct (n <? 10); [reflexivity|].
  rewrite IH, (IH _ (String _ "")), append_assoc'. reflexivity.
Qed.

Lemma log2_div10 (n : N) : 10 <= n -> N.log2 (n / 10) < N.log2 n.
Proof.
  intros H.
  assert (0 < n / 10) by (apply N.div_str_pos; lia).
  apply N.log2_lt_pow2; [assumption|].
  destruct (N.log2_spec n) as [_ Hhi]; [lia|].
  rewrite N.pow_succ_r' in Hhi.
  apply N.Div0.div_lt_upper_bound; lia.
Qed.

(** Any fuel above the binary logarithm gives the same numeral. *)
Lemma str_digits_fuel (f1 f2 : nat) (n : N) (acc : string) :
  (N.to_nat (N.log2 n) < f1)%nat -> (N.to_nat (N.log2 n) < f2)%nat ->
  str_digits f1 n acc = str_digits f2 n acc.
Proof.
  revert f2 n acc; induction f1 as [|f1 IH]; intros [|f2] n acc H1 H2; try lia.
  simpl. destruct (N.ltb_spec n 10) as [Hlt|Hge]; [reflexivity|].
  pose proof (log2_div10 n Hge).
  apply IH; lia.
Qed.

Lemma str_of_N_small (n : N) : n < 10 -> str_of_N n = String (digit_char n) "".
Proof.
  intros H. unfold str_of_N. simpl.
  destruct (N.ltb_spec n 10); [|lia].
  now rewrite N.mod_small.
Qed.

Lemma str_of_N_step (n : N) :
  10 <= n -> str_of_N n = str_of_N (n / 10) ++ String (digit_char (n mod 10)) "".
Proof.
  intros H. unfold str_of_N at 1. simpl.
  destruct (N.ltb_spec n 10); [lia|].
  rewrite str_digits_acc. f_equal.
  pose proof (log2_div10 n H).
  apply str_digits_fuel; lia.
Qed.

Lemma str_of_N_digits (n : N) : str_forallb is_digit (str_of_N n) = true.
Proof.
  induction n as [n IH] using (well_founded_induction N.lt_wf_0).
  destruct (N.ltb_spec n 10) as [Hlt|Hge].
  - rewrite str_of_N_small by assumption. simpl.
    now rewrite digit_char_is_digit.
  - rewrite str_of_N_step by assumption.
    rewrite str_forallb_append, IH by (apply N.div_lt; lia). simpl.
    rewrite digit_char_is_digit; [reflexivity|].
    apply N.mod_lt; lia.
Qed.

Lemma digit_char_zero (d : N) : d = 0 -> digit_char d = "0"%char.
Proof. intros ->; reflexivity. Qed.

(** Below 100000 the padded numeral is the five-digit one. *)
Lemma zfill_five_digits (n : N) : n < 100000 -> zfill 5 (str_of_N n) = spec_five_digits n.
Proof.
  intros Hn. unfold spec_five_digits.
  destruct (N.ltb_spec n 10) as [H1|H1];
    [|destruct (N.ltb_spec n 100) as [H2|H2];
      [|destruct (N.ltb_spec n 1000) as [H3|H3];
        [|destruct (N.ltb_spec n 10000) as [H4|H4]]]].
  all: repeat (rewrite (str_of_N_step _) by lia).
  all: rewrite str_of_N_small by lia.
  all: unfold zfill; cbn [String.append String.length Nat.sub zeros].
  all: rewrite digit_char_not_sign by lia.
  all: cbn [String.append].
  all: repeat match goal with
         | |- String _ _ = String _ _ => apply (f_equal2 String)
         | |- _ = digit_char _ => first
             [ apply (f_equal digit_char); lia
             | symmetry; apply digit_char_zero; lia ]
         | |- EmptyString = EmptyString => reflexivity
         end.
Qed.

Lemma is_digit_not_sign (c : ascii) :
  is_digit c = true -> (Ascii.eqb c "+" || Ascii.eqb c "-")%bool = false.
Proof.
  destruct c as [[] [] [] [] [] [] [] []]; vm_compute; intros H;
    first [reflexivity | discriminate H].
Qed.



(** A numeral at least [width] long is left as it is. *)
Lemma zfill_long (width : nat) (s : string) :
  str_forallb is_digit s = true -> (width <= String.length s)%nat -> zfill width s = s.
Proof.
  intros Hd Hw. unfold zfill.
  replace (width - String.length s)%nat with 0%nat by lia.
  destruct s as [|c s]; [reflexivity|].
  simpl in Hd. apply andb_true_iff in Hd as [Hc _].
  now rewrite (is_digit_not_sign c Hc).
Qed.

Lemma str_of_N_nonempty (n : N) : (1 <= String.length (str_of_N n))%nat.
Proof.
  destruct (N.ltb_spec n 10) as [H|H].
  - rewrite str_of_N_small by assumption. simpl. lia.
  - rewrite str_of_N_step by assumption. rewrite length_append. simpl. lia.
Qed.

(** From 100000 on the numeral has more than five digits. *)
Lemma str_of_N_long (n : N) : 100000 <= n -> (5 < String.length (str_of_N n))%nat.
Proof.
  intros H.
  do 5 (rewrite (str_of_N_step _) by lia; rewrite length_append).
  pose proof (str_of_N_nonempty (n / 10 / 10 / 10 / 10 / 10)).
  simpl. lia.
Qed.

(** ** Tokens and abbreviation *)

Lemma split_from_nonempty (s w : string) :
  Forall (fun t => t <> EmptyString) (split_from w s).
Proof.
  revert w; induction s as [|c s IH]; intros w; simpl.
  - destruct w; constructor; [discriminate | constructor].
  - destruct (isspace c); [|apply IH].
    destruct w; [apply IH|].
    constructor; [discriminate | apply IH].
Qed.

Lemma sector_words_nonempty (sector : string) :
  Forall (fun t => t <> EmptyString) (sector_words sector).
Proof.
  unfold sector_words. apply Forall_forall. intros t Ht.
  apply filter_In in Ht as [Ht _].
  pose proof (split_from_nonempty sector EmptyString) as H.
  rewrite Forall_forall in H. now apply H.
Qed.

Lemma initial_upper_spec (w : string) : initial_upper w = upper (str_take 1 w).
Proof. destruct w as [|c [|d w]]; reflexivity. Qed.

(** The source's abbreviation is the one the specification describes. *)
Lemma abbreviation_spec (sector : string) : abbreviation sector = spec_abbreviation sector.
Proof.
  unfold abbreviation, spec_abbreviation, sector_words, in_stop_words.
  destruct (filter _ (split sector)) as [|w ws]; [reflexivity|].
  f_equal. f_equal. apply map_ext. intros t. apply initial_upper_spec.
Qed.

(** Truncating the joined initials keeps the initials of the first words. *)
Lemma take_initials (n : nat) (ws : list string) :
  Forall (fun t => t <> EmptyString) ws ->
  str_take n (join_empty (map initial_upper ws))
  = join_empty (map initial_upper (firstn n ws)).
Proof.
  intros H; revert n; induction H as [|w ws Hw _ IH]; intros [|n]; try reflexivity.
  destruct w as [|c w]; [congruence|].
  simpl. now rewrite IH.
Qed.


Lemma initials_length (ws : list string) :
  Forall (fun t => t <> EmptyString) ws ->
  String.length (join_empty (map initial_upper ws)) = List.length ws.
Proof.
  induction 1 as [|w ws Hw _ IH]; [reflexivity|].
  destruct w as [|c w]; [congruence|].
  simpl. now rewrite IH.
Qed.



(** ** Code generator *)

Lemma generate_codigo_unfold (count_like : string -> N) (sector : string) :
  generate_codigo count_like sector
  = "VG-MAO-" ++ abbreviation sector ++ "-"
      ++ zfill 5 (str_of_N (count_like (code_prefix sector ++ "%") + 1)).
Proof.
  unfold generate_codigo, code_prefix.
  now rewrite !append_assoc'.
Qed.

(** The sequence part: five digits up to 99999, the plain numeral after. *)
Lemma sequence_format (n : N) :
  zfill 5 (str_of_N n) = if n <? 100000 then spec_five_digits n else str_of_N n.
Proof.
  destruct (N.ltb_spec n 100000) as [H|H].
  - now apply zfill_five_digits.
  - apply zfill_long; [apply str_of_N_digits|].
    pose proof (str_of_N_long n H). lia.
Qed.

(** C1 (amended).  For every insert request without a client-supplied code
    (missing or empty) and every count returned by the prefix count, the code
    is ["VG-MAO-" + abbr + "-" + seq], where [abbr] is the abbreviation of the
    sector as the specification describes it and [seq] is the decimal numeral
    of [count + 1] padded with zeros to five digits; from [count + 1 = 100000]
    on, [seq] is the unpadded numeral, which is longer than five digits. *)
Theorem insert_codigo_generated {F : Type}
    (count_like : string -> N) (address : Address.t F) :
  Address.codigo address = None \/ Address.codigo address = Some "" ->
  let abbr := spec_abbreviation (Address.sector address) in
  let count := count_like ("VG-MAO-" ++ abbr ++ "-%") in
  insert_codigo count_like address
  = "VG-MAO-" ++ abbr ++ "-"
      ++ (if count + 1 <? 100000 then spec_five_digits (count + 1) else str_of_N (count + 1))
  /\ (if count + 1 <? 100000 then true
      else (5 <? String.length (str_of_N (count + 1)))%nat) = true.
Proof.
  intros Hcode abbr count.
  assert (Hgen : insert_codigo count_like address
                 = generate_codigo count_like (Address.sector address)).
  { unfold insert_codigo. destruct Hcode as [-> | ->]; reflexivity. }
  assert (Hcount : count_like (code_prefix (Address.sector address) ++ "%") = count).
  { unfold count, abbr, code_prefix. rewrite abbreviation_spec.
    now rewrite !append_assoc'. }
  split.
  - rewrite Hgen, generate_codigo_unfold, Hcount, sequence_format.
    now rewrite abbreviation_spec.
  - destruct (N.ltb_spec (count + 1) 100000) as [H|H]; [reflexivity|].
    apply Nat.ltb_lt. now apply str_of_N_long.
Qed.

Lemma insert_codigo_generated_witness :
  insert_codigo (fun _ => 6) (Address.minimal "Sector Los Jardines" 18.5%float (-71.75)%float)
  = "VG-MAO-SJ-00007".
Proof.
  exact (proj1 (insert_codigo_generated (fun _ => 6)
                  (Address.minimal "Sector Los Jardines" 18.5%float (-71.75)%float)
                  (or_introl eq_refl))).
Defined.

(** C1 as stated fails when the count reaches 99999: the sequence part is the
    six-digit ["100000"], not a five-digit numeral. *)
Lemma insert_codigo_six_digits :
  insert_codigo (fun _ => 99999) (Address.minimal "Centro" 18.5%float (-71.75)%float)
  = "VG-MAO-C-100000"
  /\ String.eqb
       (insert_codigo (fun _ => 99999) (Address.minimal "Centro" 18.5%float (-71.75)%float))
       ("VG-MAO-" ++ spec_abbreviation "Centro" ++ "-" ++ spec_five_digits (99999 + 1))
     = false
  /\ String.length (zfill 5 (str_of_N (99999 + 1))) = 6%nat.
Proof. vm_compute. repeat split. Qed.

(** ** Codes and counts *)

Lemma decimal_value_app (acc : N) (a b : string) :
  decimal_value acc (a ++ b) = decimal_value (decimal_value acc a) b.
Proof. revert acc; induction a as [|c a IH]; intros acc; simpl; [reflexivity | apply IH]. Qed.

Lemma decimal_value_digit (acc d : N) :
  d < 10 -> decimal_value acc (String (digit_char d) "") = 10 * acc + d.
Proof.
  intros H. simpl. unfold digit_char. rewrite N_ascii_embedding by lia. lia.
Qed.

(** Reading back the numeral of [n] gives [n]. *)
Lemma decimal_value_str_of_N (n : N) : decimal_value 0 (str_of_N n) = n.
Proof.
  induction n as [n IH] using (well_founded_induction N.lt_wf_0).
  destruct (N.ltb_spec n 10) as [Hlt|Hge].
  - rewrite str_of_N_small, decimal_value_digit by assumption. lia.
  - rewrite str_of_N_step, decimal_value_app, IH by (assumption || lia).
    rewrite decimal_value_digit by lia. lia.
Qed.

Lemma decimal_value_zeros (k : nat) : decimal_value 0 (zeros k) = 0.
Proof. induction k as [|k IH]; [reflexivity | exact IH]. Qed.

Lemma append_nil_r (s : string) : s ++ "" = s.
Proof. induction s as [|c s IH]; simpl; [reflexivity | now rewrite IH]. Qed.

Lemma zfill_digits (width : nat) (s : string) :
  str_forallb is_digit s = true -> zfill width s = zeros (width - String.length s) ++ s.
Proof.
  intros H. unfold zfill. destruct s as [|c s].
  - simpl. now rewrite append_nil_r.
  - simpl in H. apply andb_true_iff in H as [Hc _].
    now rewrite (is_digit_not_sign c Hc).
Qed.

Lemma decimal_value_sequence (n : N) : decimal_value 0 (zfill 5 (str_of_N n)) = n.
Proof.
  rewrite zfill_digits by apply str_of_N_digits.
  now rewrite decimal_value_app, decimal_value_zeros, decimal_value_str_of_N.
Qed.

Lemma append_cancel_l (p a b : string) : p ++ a = p ++ b -> a = b.
Proof.
  induction p as [|c p IH]; simpl; intros H; [assumption|].
  injection H as H. now apply IH.
Qed.








Example generate_codigo_pattern_holds :
  matches_code_pattern (generate_codigo (fun _ => 6) "Sector Los Jardines") = true
  /\ matches_code_pattern (generate_codigo (fun _ => 0) "de la y") = true.
Proof. vm_compute. split; reflexivity. Qed.

(** ** The table: lookups *)

Section TableFacts.
Context {F : Type} {SR : SqliteReal F}.
Implicit Types (db : table F) (r : Row.t F) (address : AddressUpdate.t F).

Lemma select_by_codigo_none (codigo : string) db :
  select_by_codigo codigo db = None <-> ~ In codigo (map Row.codigo db).
Proof.
  unfold select_by_codigo. induction db as [|r db IH]; simpl.
  - tauto.
  - destruct (String.eqb_spec (Row.codigo r) codigo) as [E|E].
    + split; [discriminate | intros H; exfalso; apply H; now left].
    + rewrite IH. tauto.
Qed.

Lemma select_by_codigo_some (codigo : string) db r :
  select_by_codigo codigo db = Some r -> In r db /\ Row.codigo r = codigo.
Proof.
  unfold select_by_codigo. intros H. apply find_some in H as [Hin Heq].
  split; [assumption | now apply String.eqb_eq].
Qed.

(** ** The dynamic UPDATE *)

Lemma item_assignment_applicable address (c : column) :
  item_assignment address c
  = if applicable address c
    then match AddressUpdate.get c address with
         | Value v => [(c, v)]
         | _ => []
         end
    else [].
Proof.
  unfold item_assignment, applicable.
  destruct c; try reflexivity; destruct (AddressUpdate.get _ address); reflexivity.
Qed.

(** The assignments are exactly the applicable fields with their values. *)
Lemma in_update_assignments address (c : column) (v : cell F) :
  In (c, v) (update_assignments address)
  <-> applicable address c = true /\ AddressUpdate.get c address = Value v.
Proof.
  unfold update_assignments. rewrite in_flat_map. split.
  - intros [c' [_ H]]. rewrite item_assignment_applicable in H.
    destruct (applicable address c') eqn:Ha; [|contradiction].
    destruct (AddressUpdate.get c' address) eqn:Hg; try contradiction.
    destruct H as [H|[]]. injection H as -> ->. now split.
  - intros [Ha Hg]. exists c. split.
    + unfold model_fields. destruct c; simpl; tauto.
    + rewrite item_assignment_applicable, Ha, Hg. now left.
Qed.

Lemma update_assignments_empty address :
  (forall c, applicable address c = false) -> update_assignments address = [].
Proof.
  intros H. unfold update_assignments, model_fields. cbn [flat_map].
  rewrite !item_assignment_applicable, !H. reflexivity.
Qed.

Lemma set_column_other (a : assignment) r (c : column) :
  fst a <> c -> Row.get c (set_column a r) = Row.get c r.
Proof.
  destruct a as [c' v], r. simpl fst. intros H.
  destruct c', c; try reflexivity; congruence.
Qed.

Lemma set_column_identity (a : assignment) r :
  fst a <> Codigo ->
  Row.codigo (set_column a r) = Row.codigo r
  /\ Row.fecha_creacion (set_column a r) = Row.fecha_creacion r
  /\ Row.id (set_column a r) = Row.id r.
Proof.
  destruct a as [c v], r. simpl fst. intros H.
  destruct c; try (repeat split; reflexivity); congruence.
Qed.

Lemma cell_of_real_inj (x y : option F) : cell_of CReal x = cell_of CReal y -> x = y.
Proof. destruct x, y; simpl; congruence. Qed.

(** Writing to a column what it already holds changes nothing. *)
Lemma set_column_stored (c : column) (v : cell F) r :
  Row.get c r = stored v -> set_column (c, v) r = r.
Proof.
  destruct r as [i cod prov mun sec cal num ref la ln ver fue cre nota fec].
  destruct c, v as [|s|x|n]; cbn [Row.get set_column stored as_text as_real as_int
                                   Row.codigo Row.provincia Row.municipio Row.sector
                                   Row.calle Row.numero Row.referencia Row.lat Row.lng
                                   Row.verificado Row.fuente Row.creado_por Row.notas];
    intros H;
    try (apply cell_of_real_inj in H; now subst);
    repeat match type of H with
           | context [cell_of _ ?o] => destruct o; simpl in H
           end;
    try discriminate H; try (injection H as ->); reflexivity.
Qed.

Lemma apply_updates_other (updates : list assignment) r (c : column) :
  (forall a, In a updates -> fst a <> c) ->
  Row.get c (apply_updates updates r) = Row.get c r.
Proof.
  unfold apply_updates. revert r; induction updates as [|a updates IH]; intros r H; simpl.
  - reflexivity.
  - rewrite IH by (intros; apply H; now right).
    apply set_column_other, H. now left.
Qed.

Lemma apply_updates_identity (updates : list assignment) r :
  (forall a, In a updates -> fst a <> Codigo) ->
  Row.codigo (apply_updates updates r) = Row.codigo r
  /\ Row.fecha_creacion (apply_updates updates r) = Row.fecha_creacion r
  /\ Row.id (apply_updates updates r) = Row.id r.
Proof.
  unfold apply_updates. revert r; induction updates as [|a updates IH]; intros r H; simpl.
  - repeat split.
  - destruct (IH (set_column a r)) as (E1 & E2 & E3); [intros; apply H; now right|].
    destruct (set_column_identity a r) as (E1' & E2' & E3'); [apply H; now left|].
    repeat split; congruence.
Qed.

Lemma apply_updates_same (updates : list assignment) r :
  (forall c v, In (c, v) updates -> Row.get c r = stored v) ->
  apply_updates updates r = r.
Proof.
  unfold apply_updates. induction updates as [|[c v] updates IH]; intros H;
    cbn [fold_left].
  - reflexivity.
  - rewrite set_column_stored by (apply H; now left).
    apply IH. intros; apply H; now right.
Qed.

Lemma update_assignments_not_codigo address (a : assignment) :
  In a (update_assignments address) -> fst a <> Codigo.
Proof.
  destruct a as [c v]. intros H. apply in_update_assignments in H as [Ha _].
  simpl. intros ->. discriminate Ha.
Qed.

(** What [update_address] leaves in the table, whatever it answers. *)
Lemma update_address_table (codigo : string) address db :
  snd (update_address codigo address db) = db
  \/ snd (update_address codigo address db)
     = sql_update (update_assignments address) codigo db.
Proof.
  unfold update_address.
  destruct (select_by_codigo codigo db); [|now left].
  destruct (update_assignments address) as [|a updates]; [now left|].
  destruct (forallb (fun a0 => binds (snd a0)) (a :: updates)); [now right | now left].
Qed.

End TableFacts.

Lemma Forall2_map_self {A : Type} (R : A -> A -> Prop) (f : A -> A) (l : list A) :
  (forall x, In x l -> R x (f x)) -> Forall2 R l (map f l).
Proof.
  induction l as [|x l IH]; intros H; simpl; constructor.
  - apply H. now left.
  - apply IH. intros; apply H; now right.
Qed.

(** ** [update_address] *)

(** C5.  For every table, target code and patch, each row after
    [update_address] keeps its [codigo], [fecha_creacion] and [id], keeps the
    value of every column that is absent from the patch or null in it, and a
    row with another code is not changed at all. *)
Theorem update_address_frame {F : Type} {SR : SqliteReal F}
    (codigo : string) (address : AddressUpdate.t F) (db : table F) :
  Forall2
    (fun r r' =>
       Row.codigo r' = Row.codigo r
       /\ Row.fecha_creacion r' = Row.fecha_creacion r
       /\ Row.id r' = Row.id r
       /\ (forall c, applicable address c = false -> Row.get c r' = Row.get c r)
       /\ (Row.codigo r <> codigo -> r' = r))
    db (snd (update_address codigo address db)).
Proof.
  destruct (update_address_table codigo address db) as [-> | ->].
  - rewrite <- (map_id db) at 2. apply Forall2_map_self. intros r _.
    repeat split; reflexivity.
  - unfold sql_update. apply Forall2_map_self. intros r _.
    destruct (String.eqb_spec (Row.codigo r) codigo) as [E|E].
    + destruct (apply_updates_identity (update_assignments address) r)
        as (E1 & E2 & E3); [apply update_assignments_not_codigo|].
      repeat split; try assumption; [|congruence].
      intros c Hc. apply apply_updates_other.
      intros [c' v] Hin Heq. simpl in Heq. subst c'.
      apply in_update_assignments in Hin as [Ha _]. congruence.
    + repeat split; reflexivity.
Qed.

(** After an assignment the column holds the value as the column holds
    it. *)
Lemma set_column_get {F : Type} {SR : SqliteReal F} (address : AddressUpdate.t F)
    (c : column) (v : cell F) (r : Row.t F) :
  c <> Codigo -> AddressUpdate.get c address = Value v ->
  Row.get c (set_column (c, v) r) = stored v.
Proof.
  destruct r as [i cod prov mun sec cal num ref la ln ver fue cre nota fec].
  destruct c; simpl; try congruence; intros _;
    match goal with
    | |- patch_map _ ?p = _ -> _ => destruct p; simpl; intros H; inversion H; reflexivity
    end.
Qed.

Lemma assignment_columns {F : Type} (address : AddressUpdate.t F) (l : list column) :
  (forall c, In c (map fst (flat_map (item_assignment address) l)) -> In c l)
  /\ (NoDup l -> NoDup (map fst (flat_map (item_assignment address) l))).
Proof.
  induction l as [|c l [IHin IHnd]]; simpl.
  - split; [tauto | constructor].
  - rewrite item_assignment_applicable.
    destruct (applicable address c); [destruct (AddressUpdate.get c address)|]; simpl.
    1, 2, 4: split; [intros c' H; right; now apply IHin
                    | intros H; inversion H; now apply IHnd].
    split.
    + intros c' [->|H]; [now left | right; now apply IHin].
    + intros H. inversion H as [|? ? Hc Hl]; subst. constructor; [|now apply IHnd].
      intros Hin. apply Hc. now apply IHin.
Qed.

Lemma update_assignments_noDup {F : Type} (address : AddressUpdate.t F) :
  NoDup (map fst (update_assignments address)).
Proof.
  apply (assignment_columns address model_fields). unfold model_fields.
  repeat constructor; simpl; intuition discriminate.
Qed.

(** With one assignment per column, the column holds afterwards what the
    assignment of its value leaves in it. *)
Lemma apply_updates_assigned {F : Type} {SR : SqliteReal F}
    (updates : list (column * cell F)) (r : Row.t F) (c : column) (v w : cell F) :
  NoDup (map fst updates) -> In (c, v) updates ->
  (forall r0, Row.get c (set_column (c, v) r0) = w) ->
  Row.get c (apply_updates updates r) = w.
Proof.
  intros Hnd Hin Hset. revert r.
  induction updates as [|a updates IH]; intros r; [contradiction|].
  inversion Hnd as [|? ? Ha Hnd']; subst.
  destruct Hin as [->|Hin].
  - change (apply_updates ((c, v) :: updates) r)
      with (apply_updates updates (set_column (c, v) r)).
    rewrite apply_updates_other; [apply Hset|].
    intros [c' v'] Hin' E. simpl in E. subst c'.
    apply Ha. simpl. apply (in_map fst) in Hin'. exact Hin'.
  - apply (IH Hnd' Hin).
Qed.

(** The values of the UPDATE can all be bound exactly when the [verificado]
    of the patch, if it carries one, fits in 64 bits. *)
Lemma update_assignments_bind {F : Type} (address : AddressUpdate.t F) :
  forallb (fun a => binds (snd a)) (update_assignments address)
  = patch_holds fits_int64 (AddressUpdate.verificado address).
Proof.
  apply eq_true_iff_eq. rewrite forallb_forall. split.
  - intros H. destruct (AddressUpdate.verificado address) as [| |n] eqn:E;
      try reflexivity.
    apply (H (Verificado, CInt n)). apply in_update_assignments.
    unfold applicable. simpl. now rewrite E.
  - intros H [c v] Hin. apply in_update_assignments in Hin as [_ Hg].
    destruct c; simpl in Hg;
      match type of Hg with
      | patch_map _ ?p = _ => destruct p eqn:E; simpl in Hg; try discriminate Hg
      | _ => idtac
      end;
      injection Hg as <-; try reflexivity.
    exact H.
Qed.

Lemma update_assignments_nonempty {F : Type} (address : AddressUpdate.t F) :
  update_assignments address <> [] <-> exists c, applicable address c = true.
Proof.
  split.
  - destruct (update_assignments address) as [|[c v] l] eqn:E; [congruence|].
    intros _. exists c.
    assert (H : In (c, v) (update_assignments address)) by (rewrite E; now left).
    now apply in_update_assignments in H.
  - intros [c Hc] E.
    destruct (AddressUpdate.get c address) as [| |v] eqn:G;
      try (destruct c; unfold applicable in Hc; try rewrite G in Hc; discriminate).
    assert (H : In (c, v) (update_assignments address))
      by (apply in_update_assignments; now split).
    now rewrite E in H.
Qed.

(** [update_address] on a stored code, by the assignments and their
    values. *)
Lemma update_address_stored {F : Type} {SR : SqliteReal F}
    (codigo : string) (address : AddressUpdate.t F) (db : table F) :
  In codigo (map Row.codigo db) ->
  update_address codigo address db
  = match update_assignments address with
    | [] => (HTTPException 400 "No hay campos para actualizar", db)
    | _ :: _ =>
        if patch_holds fits_int64 (AddressUpdate.verificado address)
        then (Raises TypeError, sql_update (update_assignments address) codigo db)
        else (Raises OverflowError, db)
    end.
Proof.
  intros Hin. unfold update_address.
  destruct (select_by_codigo codigo db) eqn:E.
  - rewrite <- update_assignments_bind.
    now destruct (update_assignments address).
  - apply select_by_codigo_none in E. contradiction.
Qed.

(** X5.  An applicable field is written: when the code is stored and the
    [verificado] of the patch, if any, fits in 64 bits, the UPDATE is
    committed (the handler then fails at the read-back) and the target record
    holds in every column the patch sets the value of the patch as the column
    holds it: a NaN coordinate as NULL, every text and integer as sent. *)
Theorem update_address_applies {F : Type} {SR : SqliteReal F}
    (codigo : string) (address : AddressUpdate.t F) (db : table F)
    (c : column) (v : cell F) :
  In codigo (map Row.codigo db) ->
  applicable address c = true -> AddressUpdate.get c address = Value v ->
  patch_holds fits_int64 (AddressUpdate.verificado address) = true ->
  fst (update_address codigo address db) = Raises TypeError
  /\ Forall (fun r' => Row.codigo r' = codigo -> Row.get c r' = stored v)
       (snd (update_address codigo address db))
  /\ stored v
     = match v with
       | CReal x => match bind_real x with Some y => CReal y | None => CNull end
       | _ => v
       end.
Proof.
  intros Hin Ha Hg Hfit.
  assert (Hcv : In (c, v) (update_assignments address))
    by (apply in_update_assignments; now split).
  assert (Hc : c <> Codigo) by (intros ->; discriminate Ha).
  rewrite (update_address_stored codigo address db Hin), Hfit.
  destruct (update_assignments address) as [|a updates] eqn:Eu; [contradiction|].
  rewrite <- Eu in *. split; [reflexivity|]. split.
  - simpl. unfold sql_update. apply Forall_map, Forall_forall. intros r _.
    destruct (String.eqb_spec (Row.codigo r) codigo) as [Er|Er]; [|contradiction].
    intros _. apply (apply_updates_assigned _ r c v); [|assumption|].
    + apply update_assignments_noDup.
    + intros r0. now apply (set_column_get address).
  - destruct v; reflexivity.
Qed.

Lemma update_address_applies_witness :
  fst (update_address "VG-MAO-C-00001"
         (AddressUpdate.mk "VG-MAO-C-00001" Unset Unset Unset (Value "Calle Duarte") Unset
            Unset (Value PrimFloat.nan) Unset Unset Unset Unset Unset)
         sample_db)
  = Raises TypeError
  /\ Forall (fun r' => Row.codigo r' = "VG-MAO-C-00001" -> Row.get Lat r' = CNull)
       (snd (update_address "VG-MAO-C-00001"
               (AddressUpdate.mk "VG-MAO-C-00001" Unset Unset Unset (Value "Calle Duarte")
                  Unset Unset (Value PrimFloat.nan) Unset Unset Unset Unset Unset)
               sample_db)).
Proof.
  refine (let H := update_address_applies "VG-MAO-C-00001"
                     (AddressUpdate.mk "VG-MAO-C-00001" Unset Unset Unset
                        (Value "Calle Duarte") Unset Unset (Value PrimFloat.nan) Unset
                        Unset Unset Unset Unset)
                     sample_db Lat (CReal PrimFloat.nan) _ eq_refl eq_refl eq_refl
          in conj (proj1 H) (proj1 (proj2 H))).
  vm_compute. left. reflexivity.
Defined.

(** C6.  For an existing address, a patch without any applicable field is
    answered with status 400, "No hay campos para actualizar", and the table
    is left as it was. *)
Theorem update_address_no_fields {F : Type} {SR : SqliteReal F}
    (codigo : string) (address : AddressUpdate.t F) (db : table F) :
  In codigo (map Row.codigo db) ->
  (forall c, applicable address c = false) ->
  update_address codigo address db
  = (HTTPException 400 "No hay campos para actualizar", db).
Proof.
  intros Hin Hnone. unfold update_address.
  destruct (select_by_codigo codigo db) eqn:E.
  - now rewrite (update_assignments_empty address Hnone).
  - apply select_by_codigo_none in E. contradiction.
Qed.

Lemma update_address_no_fields_witness :
  update_address "VG-MAO-C-00001"
    (AddressUpdate.mk "OTHER" Unset Null Unset Unset Null Unset Unset Null Unset Unset
       Unset Unset)
    sample_db
  = (HTTPException 400 "No hay campos para actualizar", sample_db).
Proof.
  apply update_address_no_fields.
  - vm_compute. left. reflexivity.
  - intros c. destruct c; reflexivity.
Defined.

(** On a table with unique codes, only the row found by the lookup has the
    target code. *)
Lemma unique_codigo {F : Type} (db : table F) (r r' : Row.t F) :
  NoDup (map Row.codigo db) -> In r db -> In r' db ->
  Row.codigo r = Row.codigo r' -> r = r'.
Proof.
  induction db as [|x db IH]; simpl; intros Hnd Hr Hr' E; [contradiction|].
  inversion Hnd as [|? ? Hx Hnd']; subst.
  destruct Hr as [->|Hr], Hr' as [->|Hr'].
  - reflexivity.
  - exfalso. apply Hx. rewrite E. now apply in_map.
  - exfalso. apply Hx. rewrite <- E. now apply in_map.
  - now apply IH.
Qed.

(** A value read from a row whose coordinates a REAL column holds is held as
    it is. *)
Lemma stored_held {F : Type} {SR : SqliteReal F} (c : column) (r : Row.t F) :
  row_held r -> stored (Row.get c r) = Row.get c r.
Proof.
  destruct r as [i cod prov mun sec cal num ref la ln ver fue cre nota fec].
  unfold row_held. simpl. intros [Hla Hln].
  destruct c; simpl;
    match goal with
    | |- stored (cell_of _ ?o) = _ => destruct o; simpl; try reflexivity
    | _ => reflexivity
    end.
  - simpl in Hla. now rewrite Hla.
  - simpl in Hln. now rewrite Hln.
Qed.

(** On a table with unique codes, an update whose non-null present fields
    equal the current values of the target record changes nothing. *)
Lemma update_same_values {F : Type} {SR : SqliteReal F}
    (codigo : string) (address : AddressUpdate.t F) (db : table F) (r : Row.t F) :
  NoDup (map Row.codigo db) ->
  Forall row_held db ->
  select_by_codigo codigo db = Some r ->
  (forall c v, c <> Codigo -> AddressUpdate.get c address = Value v -> Row.get c r = v) ->
  snd (update_address codigo address db) = db.
Proof.
  intros Hnd Hheld Hsel Hsame.
  destruct (update_address_table codigo address db) as [E | E]; rewrite E; [reflexivity|].
  apply select_by_codigo_some in Hsel as [Hin Hcod].
  unfold sql_update. rewrite <- (map_id db) at 2. apply map_ext_in.
  intros r' Hin'. destruct (String.eqb_spec (Row.codigo r') codigo) as [E'|E']; [|reflexivity].
  assert (r' = r) as -> by (apply (unique_codigo db); congruence).
  apply apply_updates_same. intros c v Hcv.
  apply in_update_assignments in Hcv as [Ha Hg].
  rewrite <- (Hsame c v); [|intros ->; discriminate Ha | assumption].
  symmetry. apply stored_held.
  rewrite Forall_forall in Hheld. now apply Hheld.
Qed.

(** ** [insert_address] *)

(** C7 (amended).  An insert whose code, supplied or generated, is already
    stored leaves the table as it was.  When its [verificado] is absent or
    fits in a signed 64-bit integer it is answered with status 400,
    "El código ya existe"; otherwise binding the value raises [OverflowError],
    which the handler does not catch. *)
Theorem insert_address_duplicate {F : Type} {SR : SqliteReal F}
    (now : N) (address : Address.t F) (db : table F) :
  In (insert_codigo (count_like db) address) (map Row.codigo db) ->
  insert_address now address db
  = (if binds_int (Address.verificado address)
     then HTTPException 400 "El código ya existe"
     else Raises OverflowError,
     db).
Proof.
  intros Hin. unfold insert_address.
  destruct (binds_int (Address.verificado address)); [|reflexivity].
  cbn [negb]. destruct (select_by_codigo _ db) eqn:E; [reflexivity|].
  apply select_by_codigo_none in E. contradiction.
Qed.

Lemma insert_address_duplicate_witness :
  insert_address 200
    (Address.mk (Some "VG-MAO-C-00001") None None "Otro" None None None
       19%float (-71)%float None None None None)
    sample_db
  = (HTTPException 400 "El código ya existe", sample_db).
Proof.
  apply (insert_address_duplicate 200
           (Address.mk (Some "VG-MAO-C-00001") None None "Otro" None None None
              19%float (-71)%float None None None None)
           sample_db).
  vm_compute. left. reflexivity.
Defined.

(** C7 as stated fails: a duplicate code with [verificado] = 2^63 is not
    answered with status 400; binding raises [OverflowError].  The table is
    unchanged. *)
Lemma insert_address_duplicate_overflow :
  map Row.codigo sample_db = ["VG-MAO-C-00001"]
  /\ insert_address 200
       (Address.mk (Some "VG-MAO-C-00001") None None "Otro" None None None
          19%float (-71)%float (Some (2 ^ 63)%Z) None None None)
       sample_db
     = (Raises OverflowError, sample_db).
Proof. vm_compute. split; reflexivity. Qed.

(** The largest [verificado] that can be bound is 2^63 - 1. *)
Example insert_address_largest_int :
  fst (insert_address 200
         (Address.mk (Some "VG-MAO-C-00001") None None "Otro" None None None
            19%float (-71)%float (Some (2 ^ 63 - 1)%Z) None None None)
         sample_db)
  = HTTPException 400 "El código ya existe".
Proof. vm_compute. reflexivity. Qed.

(** ** Invariants of the reachable tables *)

Lemma update_address_codes {F : Type} {SR : SqliteReal F}
    (codigo : string) (address : AddressUpdate.t F) (db : table F) :
  map Row.codigo (snd (update_address codigo address db)) = map Row.codigo db.
Proof.
  destruct (update_address_table codigo address db) as [-> | ->]; [reflexivity|].
  unfold sql_update. rewrite map_map. apply map_ext. intros r.
  destruct (String.eqb (Row.codigo r) codigo); [|reflexivity].
  apply apply_updates_identity, update_assignments_not_codigo.
Qed.

(** What [insert_address] leaves in the table, whatever it answers. *)
Lemma insert_address_table {F : Type} {SR : SqliteReal F}
    (now : N) (address : Address.t F) (db : table F) :
  snd (insert_address now address db) = db
  \/ (select_by_codigo (insert_codigo (count_like db) address) db = None
      /\ binds_int (Address.verificado address) = true
      /\ snd (insert_address now address db)
         = (db ++ [inserted_row now (insert_codigo (count_like db) address) address db])%list).
Proof.
  unfold insert_address.
  destruct (binds_int (Address.verificado address)); [|now left].
  cbn [negb]. destruct (select_by_codigo _ db); [now left | now right].
Qed.

Lemma insert_address_codes {F : Type} {SR : SqliteReal F}
    (now : N) (address : Address.t F) (db : table F) :
  NoDup (map Row.codigo db) ->
  NoDup (map Row.codigo (snd (insert_address now address db))).
Proof.
  intros Hnd.
  destruct (insert_address_table now address db) as [-> | (E & _ & ->)]; [assumption|].
  apply select_by_codigo_none in E.
  rewrite map_app. simpl.
  apply NoDup_Add with (a := insert_codigo (count_like db) address) (l := map Row.codigo db).
  - rewrite <- (app_nil_r (map Row.codigo db)) at 1. apply Add_app.
  - now constructor.
Qed.

(** The UNIQUE constraint: the codes of a reachable table are distinct. *)
Lemma serve_unique {F : Type} {SR : SqliteReal F} (rqs : list (request F)) (db : table F) :
  NoDup (map Row.codigo db) -> NoDup (map Row.codigo (serve rqs db)).
Proof.
  unfold serve. revert db; induction rqs as [|rq rqs IH]; intros db H; [assumption|].
  simpl. apply IH. destruct rq as [now address | codigo address]; simpl.
  - now apply insert_address_codes.
  - now rewrite update_address_codes.
Qed.

(** What is written to a REAL column is a value the column holds. *)
Lemma real_held_bind {F : Type} {SR : SqliteReal F} (x : F) : real_held (bind_real x).
Proof.
  unfold real_held. destruct (bind_real x) as [y|] eqn:E; [|exact I].
  exact (bind_real_stored x y E).
Qed.

Lemma set_column_held {F : Type} {SR : SqliteReal F} (a : column * cell F) (r : Row.t F) :
  row_held r -> row_held (set_column a r).
Proof.
  destruct a as [c v], r as [i cod prov mun sec cal num ref la ln ver fue cre nota fec].
  unfold row_held. intros [Hla Hln].
  destruct c; simpl; split; try assumption;
    destruct v; simpl; try exact I; apply real_held_bind.
Qed.

Lemma apply_updates_held {F : Type} {SR : SqliteReal F}
    (updates : list (column * cell F)) (r : Row.t F) :
  row_held r -> row_held (apply_updates updates r).
Proof.
  unfold apply_updates. revert r.
  induction updates as [|a updates IH]; intros r H; simpl; [assumption|].
  apply IH. now apply set_column_held.
Qed.

(** The coordinates of a reachable table are values a REAL column holds. *)
Lemma serve_held {F : Type} {SR : SqliteReal F} (rqs : list (request F)) (db : table F) :
  Forall row_held db -> Forall row_held (serve rqs db).
Proof.
  unfold serve. revert db; induction rqs as [|rq rqs IH]; intros db H; [assumption|].
  simpl. apply IH. destruct rq as [now address | codigo address]; simpl.
  - destruct (insert_address_table now address db) as [-> | (_ & _ & ->)]; [assumption|].
    apply Forall_app. split; [assumption|].
    constructor; [|constructor]. split; apply real_held_bind.
  - destruct (update_address_table codigo address db) as [-> | ->]; [assumption|].
    unfold sql_update. apply Forall_map. revert H. apply Forall_impl.
    intros r Hr. destruct (String.eqb (Row.codigo r) codigo); [|assumption].
    now apply apply_updates_held.
Qed.

(** C9.  For every table reachable from the empty one and every address
    existing in it, an update whose non-null present fields all equal the
    current values of the record leaves the table, and so the record,
    identical to what it was before the call. *)
Theorem update_address_idempotent {F : Type} {SR : SqliteReal F}
    (rqs : list (request F)) (codigo : string) (address : AddressUpdate.t F)
    (r : Row.t F) :
  select_by_codigo codigo (serve rqs []) = Some r ->
  (forall c v, c <> Codigo -> AddressUpdate.get c address = Value v -> Row.get c r = v) ->
  snd (update_address codigo address (serve rqs [])) = serve rqs [].
Proof.
  intros Hsel Hsame. apply (update_same_values codigo address (serve rqs []) r).
  - apply serve_unique. constructor.
  - apply serve_held. constructor.
  - assumption.
  - assumption.
Qed.

Lemma update_address_idempotent_witness :
  snd (update_address "VG-MAO-C-00001"
         (AddressUpdate.mk "VG-MAO-C-00001" Unset (Value "Mao") (Value "Centro") Null Unset
            Unset (Value 18.5%float) Unset (Value 0%Z) Unset Unset Unset)
         (serve [Insert 100 sample_address] []))
  = serve [Insert 100 sample_address] [].
Proof.
  eapply update_address_idempotent.
  - vm_compute. reflexivity.
  - intros c v Hc. destruct c; try congruence; vm_compute;
      intros H; first [discriminate H | injection H as <-; reflexivity].
Defined.

(** A value that compares with another one is not a NaN. *)
Lemma leb_not_nan (a x : float) : PrimFloat.leb a x = true -> PrimFloat.is_nan x = false.
Proof.
  unfold PrimFloat.is_nan. rewrite leb_spec, eqb_spec.
  destruct (Prim2SF a) as [sa|sa| |sa ma ea], (Prim2SF x) as [s|s| |s m e];
    simpl; try discriminate; try reflexivity; intros _; try (destruct s; reflexivity).
  all: unfold SFeqb, SFcompare; destruct s;
    rewrite ?Z.compare_refl, ?Pos.compare_cont_refl, ?Pos.compare_refl; simpl;
    try reflexivity.
Qed.

(** A coordinate within a range around zero is held by the REAL column as a
    value within that range. *)
Lemma bind_real_in_range (lo hi x : float) :
  (PrimFloat.leb lo 0 && PrimFloat.leb 0 hi)%float = true ->
  (PrimFloat.leb lo x && PrimFloat.leb x hi)%float = true ->
  exists y,
    float_bind_real x = Some y /\ (PrimFloat.leb lo y && PrimFloat.leb y hi)%float = true.
Proof.
  intros H0 Hx. pose proof Hx as Hx'. apply andb_true_iff in Hx' as [Hlo _].
  apply leb_not_nan in Hlo.
  unfold float_bind_real. rewrite Hlo.
  destruct (PrimFloat.eqb x 0); eauto.
Qed.

Lemma set_column_in_range (a : column * cell float) (r : Row.t float) :
  assignment_in_range a -> row_in_range r = true -> row_in_range (set_column a r) = true.
Proof.
  destruct a as [c v], r as [i cod prov mun sec cal num ref la ln ver fue cre nota fec].
  unfold row_in_range. destruct c; simpl; try (intros _ H; exact H).
  - intros (x & -> & Hx). simpl.
    destruct (bind_real_in_range (-90) 90 x eq_refl Hx) as (y & -> & Hy).
    destruct la, ln; try discriminate.
    change (lat_in_range y = true) in Hy. rewrite Hy.
    intros H. apply andb_true_iff in H as [_ H]. exact H.
  - intros (x & -> & Hx). simpl.
    destruct (bind_real_in_range (-180) 180 x eq_refl Hx) as (y & -> & Hy).
    destruct la, ln; try discriminate.
    change (lng_in_range y = true) in Hy. rewrite Hy.
    intros H. apply andb_true_iff in H as [H _]. now rewrite H.
Qed.

Lemma apply_updates_in_range (updates : list (column * cell float)) (r : Row.t float) :
  Forall assignment_in_range updates ->
  row_in_range r = true -> row_in_range (apply_updates updates r) = true.
Proof.
  unfold apply_updates. intros H; revert r.
  induction H as [|a updates Ha _ IH]; intros r Hr; simpl; [assumption|].
  apply IH. now apply set_column_in_range.
Qed.

Lemma update_assignments_in_range (codigo : string) (address : AddressUpdate.t float) :
  request_in_range (Update codigo address) = true ->
  Forall assignment_in_range (update_assignments address).
Proof.
  intros H. simpl in H. apply andb_true_iff in H as [Hlat Hlng].
  apply Forall_forall. intros [c v] Hin.
  apply in_update_assignments in Hin as [_ Hg].
  destruct c; simpl; try exact I; simpl in Hg.
  - destruct (AddressUpdate.lat address) as [| |x]; try discriminate.
    injection Hg as <-. now exists x.
  - destruct (AddressUpdate.lng address) as [| |x]; try discriminate.
    injection Hg as <-. now exists x.
Qed.

Lemma handle_in_range (rq : request float) (db : table float) :
  request_in_range rq = true ->
  Forall (fun r => row_in_range r = true) db ->
  Forall (fun r => row_in_range r = true) (handle db rq).
Proof.
  intros Hrq Hdb. destruct rq as [now address | codigo address]; simpl.
  - destruct (insert_address_table now address db) as [-> | (_ & _ & ->)]; [assumption|].
    apply Forall_app. split; [assumption|].
    constructor; [|constructor].
    simpl in Hrq. apply andb_true_iff in Hrq as [Hlat Hlng].
    destruct (bind_real_in_range (-90) 90 _ eq_refl Hlat) as (la & Ela & Hla).
    destruct (bind_real_in_range (-180) 180 _ eq_refl Hlng) as (ln & Eln & Hln).
    unfold row_in_range, inserted_row. cbn [Row.lat Row.lng].
    change (@bind_real float float_real) with float_bind_real. rewrite Ela, Eln.
    apply andb_true_iff. split; assumption.
  - destruct (update_address_table codigo address db) as [-> | ->]; [assumption|].
    unfold sql_update. apply Forall_map. revert Hdb. apply Forall_impl.
    intros r Hr. destruct (String.eqb (Row.codigo r) codigo); [|assumption].
    apply apply_updates_in_range; [|assumption].
    now apply (update_assignments_in_range codigo).
Qed.

(** C4 (amended).  When every insert and update request carries coordinates
    within range (latitude in [-90, 90], longitude in [-180, 180]), every
    record of every table reachable from the empty one has both coordinates
    present and within range.  The handlers themselves do not check ranges. *)
Theorem serve_in_range (rqs : list (request float)) :
  Forall (fun rq => request_in_range rq = true) rqs ->
  Forall (fun r => row_in_range r = true) (serve rqs []).
Proof.
  assert (G : forall db : table float,
             Forall (fun rq => request_in_range rq = true) rqs ->
             Forall (fun r => row_in_range r = true) db ->
             Forall (fun r => row_in_range r = true) (serve rqs db)).
  { unfold serve. induction rqs as [|rq rqs IH]; intros db Hrqs Hdb; [assumption|].
    inversion Hrqs; subst. simpl. apply IH; [assumption|].
    now apply handle_in_range. }
  intros H. apply G; [assumption | constructor].
Qed.

Lemma serve_in_range_witness :
  Forall (fun r => row_in_range r = true)
    (serve [Insert 100 sample_address;
            Update "VG-MAO-C-00001"
              (AddressUpdate.mk "VG-MAO-C-00001" Unset Unset Unset Unset Unset Unset
                 (Value 19.25%float) Null Unset Unset Unset Unset)]
       []).
Proof.
  apply serve_in_range. repeat constructor.
Defined.

(** C4 as stated fails: an insert with latitude 1000 is stored as sent. *)
Lemma serve_out_of_range :
  map Row.lat (serve [Insert 100 (Address.minimal "Centro" 1000%float (-71.75)%float)] [])
  = [Some 1000%float]
  /\ forallb row_in_range
       (serve [Insert 100 (Address.minimal "Centro" 1000%float (-71.75)%float)] [])
     = false.
Proof. vm_compute. split; reflexivity. Qed.

(** So does an update that moves a stored longitude out of range. *)
Example update_out_of_range :
  map Row.lng
    (serve [Update "VG-MAO-C-00001"
              (AddressUpdate.mk "VG-MAO-C-00001" Unset Unset Unset Unset Unset Unset
                 Unset (Value 200%float) Unset Unset Unset Unset)]
       sample_db)
  = [Some 200%float].
Proof. vm_compute. reflexivity. Qed.

(** ** LIKE and substrings *)

Lemma lower_char_idem (c : ascii) : lower_char (lower_char c) = lower_char c.
Proof. destruct c as [[] [] [] [] [] [] [] []]; reflexivity. Qed.






Lemma utf8_length_append (a b : string) :
  utf8_length (a ++ b) = utf8_length a + utf8_length b.
Proof. induction a as [|c a IH]; simpl; [reflexivity | rewrite IH; lia]. Qed.

(** A text without NUL is read whole. *)
Lemma c_string_no_nul (s : string) : no_nul s = true -> c_string s = s.
Proof.
  unfold no_nul. induction s as [|c s IH]; simpl; [reflexivity|].
  intros H. apply andb_true_iff in H as [Hc Hs].
  apply negb_true_iff in Hc. now rewrite Hc, IH.
Qed.


Lemma c_string_idem (s : string) : c_string (c_string s) = c_string s.
Proof.
  induction s as [|c s IH]; simpl; [reflexivity|].
  destruct (Ascii.eqb c Ascii.zero) eqn:E; simpl; [reflexivity|]. now rewrite E, IH.
Qed.

(** The text read of an appended text. *)
Lemma c_string_append (a b : string) :
  c_string (a ++ b) = if no_nul a then a ++ c_string b else c_string a.
Proof.
  unfold no_nul. induction a as [|c a IH]; simpl; [reflexivity|].
  destruct (Ascii.eqb c Ascii.zero); simpl; [reflexivity|].
  rewrite IH. now destruct (str_forallb _ a).
Qed.




(** [%] at the head of a pattern: match here, or skip one character. *)
Lemma like_match_percent (p t : string) :
  like_match (String "%" p) t
  = like_match p t
    || match t with
       | EmptyString => false
       | String _ t' => like_match (String "%" p) t'
       end.
Proof. destruct t; reflexivity. Qed.

Lemma like_match_any (t : string) : like_match "%" t = true.
Proof.
  induction t as [|c t IH]; [reflexivity|].
  rewrite like_match_percent, IH. apply orb_true_r.
Qed.







(** ** ORDER BY and LIMIT *)

Section Ordering.
Context {F : Type}.
Implicit Types (r : Row.t F) (l : list (Row.t F)).

Lemma insert_desc_perm r l : Permutation (r :: l) (insert_desc r l).
Proof.
  induction l as [|x l IH]; simpl; [reflexivity|].
  destruct (Row.fecha_creacion x <? Row.fecha_creacion r); [reflexivity|].
  rewrite perm_swap. now constructor.
Qed.

Lemma insert_desc_hd (x r : Row.t F) l :
  newer_or_equal x r -> HdRel newer_or_equal x l -> HdRel newer_or_equal x (insert_desc r l).
Proof.
  intros Hxr Hl. destruct l as [|y l]; simpl; [now constructor|].
  destruct (Row.fecha_creacion y <? Row.fecha_creacion r); constructor; [assumption|].
  now inversion Hl.
Qed.

Lemma insert_desc_sorted r l :
  Sorted newer_or_equal l -> Sorted newer_or_equal (insert_desc r l).
Proof.
  induction 1 as [|x l Hl IH Hx]; simpl; [repeat constructor|].
  destruct (N.ltb_spec (Row.fecha_creacion x) (Row.fecha_creacion r)) as [Hlt|Hge].
  - constructor; [now constructor|]. constructor. unfold newer_or_equal. lia.
  - constructor; [assumption|]. apply insert_desc_hd; [exact Hge | assumption].
Qed.

Lemma order_by_fecha_desc_from (acc l : list (Row.t F)) :
  Sorted newer_or_equal acc ->
  Sorted newer_or_equal (fold_left (fun acc r => insert_desc r acc) l acc)
  /\ Permutation (fold_left (fun acc r => insert_desc r acc) l acc) (acc ++ l).
Proof.
  revert acc; induction l as [|r l IH]; intros acc Hacc; simpl.
  - now rewrite app_nil_r.
  - destruct (IH (insert_desc r acc)) as [Hs Hp]; [now apply insert_desc_sorted|].
    split; [assumption|]. rewrite Hp, <- insert_desc_perm.
    simpl. apply Permutation_middle.
Qed.

(** The ordered rows are the given rows, most recent first. *)
Lemma order_by_fecha_desc_sorted l :
  Sorted newer_or_equal (order_by_fecha_desc l)
  /\ Permutation (order_by_fecha_desc l) l.
Proof. apply (order_by_fecha_desc_from [] l). constructor. Qed.

Lemma filter_all {A : Type} (f : A -> bool) (l : list A) :
  (forall x, f x = true) -> filter f l = l.
Proof.
  intros H. induction l as [|x l IH]; simpl; [reflexivity|]. now rewrite H, IH.
Qed.




(** On fields without NUL the test is the one of the specification. *)
Lemma text_matches_spec (q : option string) r :
  (forall c s, Row.get c r = CText s -> no_nul s = true) ->
  text_matches q r = spec_matches q r.
Proof.
  intros H. destruct q as [q|]; [|reflexivity].
  unfold text_matches, spec_matches.
  assert (Hsec := H Sector). assert (Hcal := H Calle).
  assert (Href := H Referencia). assert (Hcod := H Codigo).
  destruct r as [i cod prov mun sec cal num ref la ln ver fue cre nota fec].
  simpl in *.
  rewrite (c_string_no_nul cod) by now apply Hcod.
  destruct sec as [s1|], cal as [s2|], ref as [s3|]; simpl;
    rewrite ?(c_string_no_nul s1), ?(c_string_no_nul s2), ?(c_string_no_nul s3);
    first [reflexivity | now apply Hsec | now apply Hcal | now apply Href].
Qed.

End Ordering.

(** ** [get_addresses] *)




Example get_addresses_listing :
  option_map (map Row.codigo)
    (match get_addresses None (Some 1%Z) sample_db2 with
     | Returns rows => Some rows
     | _ => None
     end)
  = Some ["VG-MAO-J-00001"]
  /\ get_addresses (Some "mao-c") None sample_db2 = Returns sample_db.
Proof. vm_compute. split; reflexivity. Qed.


(** The small "é" does not find "Éxito" either, and the largest limit that
    can be bound is 2^63 - 1. *)
Example get_addresses_edges :
  get_addresses (Some e_acute_small) None accent_db = Returns []
  /\ get_addresses (Some "X") None accent_db = Returns accent_db
  /\ fits_int64 (2 ^ 63 - 1) = true
  /\ get_addresses (Some long_query) (Some 0%Z) sample_db = Returns []
  /\ get_addresses (Some long_query) None (@nil (Row.t float)) = Returns [].
Proof. vm_compute. repeat split. Qed.

(** ** [estimate_ride] *)

Section FareFacts.
Context {F : Type} {PF : PyFloat F} {PL : PyFloatLaws F}.
Local Open Scope py_scope.

(** The squared sine of half a difference does not depend on the order of
    the difference. *)
Lemma sin_sq_half_swap (x y : F) (k : F -> option F) :
  (half <- fdiv (fsub y x) (of_int 2) ;; s <- fsin half ;; sq <- fpow s 2 ;; k sq)
  = (half <- fdiv (fsub x y) (of_int 2) ;; s <- fsin half ;; sq <- fpow s 2 ;; k sq).
Proof.
  destruct (fsub_swap x y) as [E|E]; rewrite E; [|reflexivity].
  rewrite fdiv_fneg. destruct (fdiv (fsub x y) (of_int 2)) as [h|]; [|reflexivity].
  simpl. rewrite fsin_fneg. destruct (fsin h) as [s|]; [|reflexivity].
  simpl. now rewrite fpow_fneg_2.
Qed.

Lemma haversine_km_symmetric (p d : option F * option F) :
  haversine_km p d = haversine_km d p.
Proof.
  destruct p as [[plat|] [plng|]], d as [[dlat|] [dlng|]]; try reflexivity.
  unfold haversine_km. cbn [fst snd radians_of].
  rewrite (sin_sq_half_swap (radians dlat) (radians plat)).
  destruct (fdiv (fsub (radians dlat) (radians plat)) (of_int 2)) as [h|]; [|reflexivity].
  destruct (fsin h) as [s|]; [|reflexivity].
  destruct (fpow s 2) as [sq|]; [|reflexivity].
  destruct (fcos (radians plat)) as [c1|], (fcos (radians dlat)) as [c2|]; try reflexivity.
  rewrite (sin_sq_half_swap (radians dlng) (radians plng)).
  now rewrite (fmul_comm c2 c1).
Qed.

End FareFacts.

(** Whenever [fare_of] returns, the minutes are at least 3. *)
Lemma fare_of_minutes {F : Type} {PF : PyFloat F}
    (distance_km : F) (result : Estimate.t F) :
  fare_of distance_km = Some result -> (3 <= Estimate.estimated_minutes result)%Z.
Proof.
  unfold fare_of.
  destruct (fdiv distance_km (of_int 25)) as [h|]; [|discriminate].
  destruct (int_of _) as [m|]; [|discriminate].
  destruct (round_int _) as [f|]; [|discriminate].
  intros H. injection H as <-. simpl. lia.
Qed.

(** C10.  For every float arithmetic with the sign symmetries of
    [PyFloatLaws], every table and every two codes, [estimate_ride] answers
    the same with the codes exchanged: the same distance, minutes, fare and
    summary, or the same failure. *)
Theorem estimate_ride_symmetric {F : Type} {PF : PyFloat F}
    (pickup_codigo dropoff_codigo : json F) (db : table F) :
  PyFloatLaws F ->
  estimate_ride pickup_codigo dropoff_codigo db
  = estimate_ride dropoff_codigo pickup_codigo db.
Proof.
  intros PL. unfold estimate_ride.
  destruct (code_param pickup_codigo) as [pickup_param|],
           (code_param dropoff_codigo) as [dropoff_param|]; try reflexivity.
  destruct (select_lat_lng pickup_param db) as [p|],
           (select_lat_lng dropoff_param db) as [d|]; try reflexivity.
  now rewrite (haversine_km_symmetric p d).
Qed.

(** Exact real arithmetic has the sign symmetries. *)
Lemma real_float_laws : @PyFloatLaws R RealArith.real_float.
Proof.
  constructor; simpl.
  - intros x y. left. ring.
  - intros x y. destruct (Req_dec_T y 0); [reflexivity|].
    simpl. f_equal. unfold Rdiv. ring.
  - intros x. f_equal. apply sin_neg.
  - intros x.
    destruct (Req_dec_T (- x) 0), (Req_dec_T x 0); simpl; f_equal; ring.
  - intros x y. apply Rmult_comm.
Qed.

Lemma estimate_ride_symmetric_witness :
  @estimate_ride R RealArith.real_float
    (JString "VG-MAO-C-00001") (JString "VG-MAO-J-00001") sample_real_db
  = @estimate_ride R RealArith.real_float
      (JString "VG-MAO-J-00001") (JString "VG-MAO-C-00001") sample_real_db.
Proof.
  exact (@estimate_ride_symmetric R RealArith.real_float _ _ _ real_float_laws).
Defined.

Example sample_real_db_codes :
  map Row.codigo sample_real_db = ["VG-MAO-C-00001"; "VG-MAO-J-00001"].
Proof. reflexivity. Qed.

(** ** The estimate and the formulas of the specification *)

Section FormulaFacts.
Context {F : Type} {PF : PyFloat F} {PO : PyFloatOrder F} {POL : PyFloatOrderLaws F}.
Local Open Scope py_scope.

(** The distance the handler computes is the one of the formula. *)
Lemma haversine_km_spec (lat1 lng1 lat2 lng2 : F) :
  haversine_km (Some lat1, Some lng1) (Some lat2, Some lng2)
  = spec_distance_km (lat1, lng1) (lat2, lng2).
Proof.
  unfold haversine_km, spec_distance_km, spec_sin_sq. cbn [fst snd radians_of].
  destruct (fdiv (fsub (radians lat2) (radians lat1)) (of_int 2)) as [hlat|];
    [|reflexivity].
  destruct (fdiv (fsub (radians lng2) (radians lng1)) (of_int 2)) as [hlng|].
  - destruct (fsin hlat) as [slat|]; [|reflexivity].
    destruct (fpow slat 2) as [qlat|]; [|reflexivity].
    destruct (fsin hlng) as [slng|].
    + destruct (fpow slng 2) as [qlng|]; [reflexivity|].
      now destruct (fcos (radians lat1)), (fcos (radians lat2)).
    + now destruct (fcos (radians lat1)), (fcos (radians lat2)).
  - destruct (fsin hlat) as [slat|]; [|reflexivity].
    destruct (fpow slat 2) as [qlat|]; [|reflexivity].
    now destruct (fcos (radians lat1)), (fcos (radians lat2)).
Qed.

(** A distance the formula gives is not below zero. *)
Lemma spec_distance_km_sign (p1 p2 : F * F) (distance_km : F) :
  spec_distance_km p1 p2 = Some distance_km -> below_zero distance_km = false.
Proof.
  unfold spec_distance_km.
  destruct (fdiv _ (of_int 2)) as [hlat|]; [|discriminate].
  destruct (fdiv _ (of_int 2)) as [hlng|]; [|discriminate].
  destruct (spec_sin_sq hlat) as [qlat|]; [|discriminate].
  destruct (spec_sin_sq hlng) as [qlng|]; [|discriminate].
  destruct (fcos _) as [c1|]; [|discriminate].
  destruct (fcos _) as [c2|]; [|discriminate].
  destruct (fsqrt _) as [root|] eqn:Eroot; [|discriminate].
  destruct (fasin root) as [angle|] eqn:Eangle; [|discriminate].
  intros H. injection H as <-.
  apply fmul_sign; [apply of_int_sign; lia|].
  apply fmul_sign; [apply of_int_sign; lia|].
  apply (fasin_sign root angle Eangle).
  exact (fsqrt_sign _ root Eroot).
Qed.

(** On a distance that is not below zero, [int] gives the minutes of the
    specification, which takes the floor. *)
Lemma fare_of_spec (distance_km : F) :
  below_zero distance_km = false ->
  fare_of distance_km
  = (minutes <- spec_minutes distance_km ;;
     whole_fare <- round_int (spec_fare distance_km) ;;
     Some (Estimate.mk
             (round_to distance_km 2)
             minutes
             (round_to (spec_fare distance_km) 2)
             (repr (round_to distance_km 1) ++ " km · ~"
                ++ str_of_Z minutes ++ " min · RD$"
                ++ str_of_Z whole_fare))).
Proof.
  intros Hkm. unfold fare_of, spec_minutes, spec_fare.
  destruct (fdiv distance_km (of_int 25)) as [hours|] eqn:Eh; [|reflexivity].
  rewrite int_of_floor.
  - now destruct (floor_of (fmul hours (of_int 60))).
  - apply fmul_sign; [|apply of_int_sign; lia].
    apply (fdiv_sign distance_km (of_int 25) hours Eh Hkm).
    apply of_int_sign. lia.
Qed.

End FormulaFacts.

(** C3 (amended).  For every float arithmetic with the sign laws of
    [PyFloatOrderLaws] and every two registered addresses, [estimate_ride]
    answers what the formulas of the specification give on the stored
    coordinates: the haversine distance with radius 6371 rounded to 2
    decimals, the fare [75 + 35 * distance] rounded to 2 decimals,
    [max(3, floor(distance / 25 * 60))] minutes and the summary made of the
    distance rounded to 1 decimal, the minutes and the fare rounded to 0
    decimals.  It raises, instead of returning, exactly when one of the
    operations of the formulas raises, and always when a stored coordinate
    is NULL. *)
Theorem estimate_ride_formula {F : Type} {PF : PyFloat F} {PO : PyFloatOrder F}
    (pickup dropoff : string) (db : table F) (rp rd : Row.t F) :
  PyFloatOrderLaws F ->
  select_by_codigo pickup db = Some rp ->
  select_by_codigo dropoff db = Some rd ->
  estimate_ride (JString pickup) (JString dropoff) db
  = match Row.lat rp, Row.lng rp, Row.lat rd, Row.lng rd with
    | Some lat1, Some lng1, Some lat2, Some lng2 =>
        match spec_estimate (lat1, lng1) (lat2, lng2) with
        | Some estimate => Returns estimate
        | None => Unhandled
        end
    | _, _, _, _ => Unhandled
    end.
Proof.
  intros POL Hp Hd. unfold estimate_ride, code_param, select_lat_lng.
  rewrite Hp, Hd.
  destruct (Row.lat rp) as [lat1|], (Row.lng rp) as [lng1|],
           (Row.lat rd) as [lat2|], (Row.lng rd) as [lng2|]; try reflexivity.
  rewrite haversine_km_spec. unfold spec_estimate.
  destruct (spec_distance_km (lat1, lng1) (lat2, lng2)) as [km|] eqn:Ekm;
    [|reflexivity].
  rewrite (fare_of_spec km (spec_distance_km_sign _ _ km Ekm)).
  destruct (spec_minutes km) as [minutes|]; [|reflexivity].
  now destruct (round_int (spec_fare km)).
Qed.

Lemma asin_nonneg (x : R) : (0 <= x <= 1 -> 0 <= asin x)%R.
Proof.
  intros [H0 H1].
  destruct (Rle_lt_dec 0 (asin x)) as [H|H]; [assumption|].
  pose proof (asin_bound x) as [Hlo _].
  pose proof PI_RGT_0.
  assert (sin (asin x) < 0)%R by (apply sin_lt_0_var; lra).
  rewrite sin_asin in * by lra. lra.
Qed.

(** Exact real arithmetic has the sign laws. *)
Lemma real_order_laws : @PyFloatOrderLaws R RealArith.real_float RealArith.real_order.
Proof.
  constructor; simpl.
  - intros n Hn. destruct (Rlt_dec (IZR n) 0) as [H|_]; [|reflexivity].
    apply IZR_le in Hn. lra.
  - intros x y. destruct (Rlt_dec x 0), (Rlt_dec y 0); try discriminate.
    intros _ _. destruct (Rlt_dec (x * y) 0); [nra | reflexivity].
  - intros x y z. destruct (Req_dec_T y 0) as [|Hy]; [discriminate|].
    intros H. injection H as <-.
    destruct (Rlt_dec x 0), (Rlt_dec y 0); try discriminate. intros _ _.
    destruct (Rlt_dec (x / y) 0) as [H|_]; [|reflexivity].
    assert (0 < / y)%R by (apply Rinv_0_lt_compat; lra).
    unfold Rdiv in H. nra.
  - intros x y. destruct (Rle_dec 0 x); [|discriminate].
    intros H. injection H as <-.
    destruct (Rlt_dec (sqrt x) 0) as [H|_]; [|reflexivity].
    pose proof (sqrt_pos x). lra.
  - intros x y. destruct (Rle_dec (-1) x); [|discriminate].
    destruct (Rle_dec x 1); [|discriminate].
    intros H. injection H as <-.
    destruct (Rlt_dec x 0); [discriminate|]. intros _.
    destruct (Rlt_dec (asin x) 0) as [H|_]; [|reflexivity].
    assert (0 <= asin x)%R by (apply asin_nonneg; lra). lra.
  - intros x. destruct (Rlt_dec x 0); [discriminate|]. intros _.
    unfold RealArith.trunc. destruct (Rle_dec 0 x); [reflexivity | lra].
Qed.

Lemma estimate_ride_formula_witness :
  @estimate_ride R RealArith.real_float
    (JString "VG-MAO-C-00001") (JString "VG-MAO-J-00001") sample_real_db
  = match
      @spec_estimate R RealArith.real_float RealArith.real_order
        (18.4432%R, (-71.7533)%R) (18.45%R, (-71.76)%R)
    with
    | Some estimate => Returns estimate
    | None => Unhandled
    end.
Proof.
  exact (@estimate_ride_formula R RealArith.real_float RealArith.real_order
           "VG-MAO-C-00001" "VG-MAO-J-00001" sample_real_db _ _
           real_order_laws eq_refl eq_refl).
Defined.

(** C3 as stated fails: an address registered with a NaN latitude holds NULL
    in [lat], and every estimate from it raises, whatever the float
    arithmetic: [math.radians(None)] is a [TypeError]. *)
Lemma estimate_ride_nan_latitude :
  map Row.codigo nan_db = ["VG-MAO-C-00001"; "VG-MAO-J-00001"]
  /\ map Row.lat nan_db = [None; Some 18.75%float]
  /\ (forall PF : PyFloat float,
        @estimate_ride float PF (JString "VG-MAO-C-00001") (JString "VG-MAO-J-00001")
          nan_db
        = Unhandled).
Proof.
  split; [vm_compute; reflexivity|]. split; [vm_compute; reflexivity|].
  intros PF. reflexivity.
Qed.

(** * Further properties of the handlers *)

(** ** [get_address] and [insert_address] *)

(** X1.  [get_address] returns a stored record that has the requested code,
    and answers 404 exactly when no stored record has it. *)
Theorem get_address_spec {F : Type} (codigo : string) (db : table F) :
  match get_address codigo db with
  | Returns row => In row db /\ Row.codigo row = codigo
  | NotFound detail =>
      detail = "Dirección no encontrada" /\ ~ In codigo (map Row.codigo db)
  | Unhandled => False
  end.
Proof.
  unfold get_address. destruct (select_by_codigo codigo db) as [row|] eqn:E.
  - now apply select_by_codigo_some.
  - split; [reflexivity | now apply select_by_codigo_none].
Qed.

Lemma select_by_codigo_app {F : Type} (codigo : string) (db : table F) (row : Row.t F) :
  select_by_codigo codigo (db ++ [row])%list
  = match select_by_codigo codigo db with
    | Some found => Some found
    | None => if String.eqb (Row.codigo row) codigo then Some row else None
    end.
Proof.
  unfold select_by_codigo. induction db as [|x db IH]; simpl; [reflexivity|].
  destruct (String.eqb (Row.codigo x) codigo); [reflexivity | exact IH].
Qed.

(** X2.  An insert whose code is not stored yet is committed when its
    [verificado] is absent or fits in 64 bits: exactly the row of the INSERT
    statement is appended, holding each coordinate as the REAL column holds
    it (NULL for a NaN), the handler then fails at the read-back, and
    [get_address] with that code returns this row.  Otherwise binding raises
    [OverflowError] and nothing is written. *)
Theorem insert_then_get {F : Type} {SR : SqliteReal F}
    (now : N) (address : Address.t F) (db : table F) :
  ~ In (insert_codigo (count_like db) address) (map Row.codigo db) ->
  let row := inserted_row now (insert_codigo (count_like db) address) address db in
  insert_address now address db
  = (if binds_int (Address.verificado address)
     then (Raises TypeError, (db ++ [row])%list)
     else (Raises OverflowError, db))
  /\ (binds_int (Address.verificado address) = true ->
      get_address (insert_codigo (count_like db) address)
        (snd (insert_address now address db))
      = Returns row)
  /\ Row.lat row = bind_real (Address.lat address)
  /\ Row.lng row = bind_real (Address.lng address)
  /\ Row.verificado row = Address.verificado address.
Proof.
  intros Hnew row. apply select_by_codigo_none in Hnew.
  unfold insert_address. rewrite Hnew.
  split; [now destruct (binds_int (Address.verificado address))|].
  split; [|repeat split].
  intros ->. unfold get_address. cbn [negb snd]. rewrite select_by_codigo_app, Hnew.
  subst row. cbn [inserted_row Row.codigo]. now rewrite String.eqb_refl.
Qed.

Lemma insert_then_get_witness :
  insert_address 101 (Address.minimal "Los Jardines" 18.75%float (-71.5)%float) sample_db
  = (Raises TypeError,
     (sample_db
        ++ [inserted_row 101 "VG-MAO-J-00001"
              (Address.minimal "Los Jardines" 18.75%float (-71.5)%float) sample_db])%list)
  /\ get_address "VG-MAO-J-00001"
       (snd (insert_address 101
               (Address.minimal "Los Jardines" 18.75%float (-71.5)%float) sample_db))
     = Returns
         (inserted_row 101 "VG-MAO-J-00001"
            (Address.minimal "Los Jardines" 18.75%float (-71.5)%float) sample_db).
Proof.
  refine (let H := insert_then_get 101
                     (Address.minimal "Los Jardines" 18.75%float (-71.5)%float)
                     sample_db _
          in conj (proj1 H) (proj1 (proj2 H) eq_refl)).
  vm_compute. intros [H|[]]. discriminate H.
Defined.

(** A NaN latitude is held as NULL and the longitude [-0.0] as [0.0]; a
    [verificado] of 2^63 makes the insert raise and nothing is written. *)
Example insert_address_binding :
  map (fun r => (Row.lat r, Row.lng r))
    (snd (insert_address 100 (Address.minimal "Centro" PrimFloat.nan (-0)%float) []))
  = [(None, Some 0%float)]
  /\ insert_address 100
       (Address.mk None None None "Centro" None None None 18.5%float (-71.75)%float
          (Some (2 ^ 63)%Z) None None None)
       []
     = (Raises OverflowError, []).
Proof. vm_compute. split; reflexivity. Qed.

(** X3.  No insert, committed or rejected, changes what [get_address] answers
    for a code that was stored before it, or for any code other than the one
    it inserts. *)
Theorem insert_keeps_records {F : Type} {SR : SqliteReal F}
    (now : N) (address : Address.t F) (db : table F) (codigo : string) :
  In codigo (map Row.codigo db) \/ codigo <> insert_codigo (count_like db) address ->
  get_address codigo (snd (insert_address now address db)) = get_address codigo db.
Proof.
  intros H.
  destruct (insert_address_table now address db) as [-> | (E & _ & ->)]; [reflexivity|].
  unfold get_address. rewrite select_by_codigo_app.
  destruct (select_by_codigo codigo db) eqn:E'; [reflexivity|].
  cbn [inserted_row Row.codigo].
  destruct (String.eqb_spec (insert_codigo (count_like db) address) codigo) as [Eq|Ne];
    [|reflexivity].
  exfalso. apply select_by_codigo_none in E'. destruct H as [H|H]; [contradiction|].
  now apply H.
Qed.

Lemma insert_keeps_records_witness :
  get_address "VG-MAO-C-00001"
    (snd (insert_address 101
            (Address.minimal "Los Jardines" 18.75%float (-71.5)%float) sample_db))
  = get_address "VG-MAO-C-00001" sample_db.
Proof.
  apply insert_keeps_records. left. vm_compute. left. reflexivity.
Defined.

(** ** [update_address] *)

(** X4.  The four outcomes of [update_address] and when each occurs: 404 with
    the table unchanged exactly when the code is not stored; 400 with the
    table unchanged when it is stored and the patch has no applicable field;
    [OverflowError] with the table unchanged when it is stored and the
    [verificado] of the patch does not fit in 64 bits; otherwise the UPDATE
    is committed and the handler fails at the read-back. *)
Theorem update_address_outcome {F : Type} {SR : SqliteReal F}
    (codigo : string) (address : AddressUpdate.t F) (db : table F) :
  (~ In codigo (map Row.codigo db)
   /\ update_address codigo address db
      = (HTTPException 404 "Dirección no encontrada", db))
  \/ (In codigo (map Row.codigo db)
      /\ (forall c, applicable address c = false)
      /\ update_address codigo address db
         = (HTTPException 400 "No hay campos para actualizar", db))
  \/ (In codigo (map Row.codigo db)
      /\ (exists n, AddressUpdate.verificado address = Value n /\ fits_int64 n = false)
      /\ update_address codigo address db = (Raises OverflowError, db))
  \/ (In codigo (map Row.codigo db)
      /\ (exists c, applicable address c = true)
      /\ patch_holds fits_int64 (AddressUpdate.verificado address) = true
      /\ update_address codigo address db
         = (Raises TypeError, sql_update (update_assignments address) codigo db)).
Proof.
  destruct (select_by_codigo codigo db) as [row|] eqn:E.
  - assert (Hin : In codigo (map Row.codigo db)).
    { apply select_by_codigo_some in E as [Hin <-]. now apply in_map. }
    right. rewrite (update_address_stored codigo address db Hin).
    destruct (update_assignments address) as [|a l] eqn:Eu.
    + left. repeat split; try assumption.
      intros c. destruct (applicable address c) eqn:Ha; [|reflexivity].
      exfalso. apply (proj2 (update_assignments_nonempty address)); eauto.
    + right. destruct (patch_holds fits_int64 (AddressUpdate.verificado address)) eqn:Hfit.
      * right. repeat split; try assumption.
        apply update_assignments_nonempty. rewrite Eu. discriminate.
      * left. repeat split; try assumption.
        destruct (AddressUpdate.verificado address) as [| |n]; try discriminate.
        now exists n.
  - left. split; [now apply select_by_codigo_none|].
    unfold update_address. now rewrite E.
Qed.

(** A [verificado] of 2^63 in a patch: nothing is written. *)
Example update_address_overflow :
  update_address "VG-MAO-C-00001"
    (AddressUpdate.mk "VG-MAO-C-00001" Unset Unset Unset (Value "Calle Duarte") Unset
       Unset Unset Unset (Value (2 ^ 63)%Z) Unset Unset Unset)
    sample_db
  = (Raises OverflowError, sample_db).
Proof. vm_compute. reflexivity. Qed.

(** Applying the assignments of a patch a second time changes nothing. *)
Lemma apply_update_assignments_twice {F : Type} {SR : SqliteReal F}
    (address : AddressUpdate.t F) (r : Row.t F) :
  apply_updates (update_assignments address) (apply_updates (update_assignments address) r)
  = apply_updates (update_assignments address) r.
Proof.
  apply apply_updates_same. intros c v Hin.
  apply (apply_updates_assigned _ _ c v);
    [apply update_assignments_noDup | assumption |].
  apply in_update_assignments in Hin as [Ha Hg].
  intros r0. apply (set_column_get address); [|assumption].
  intros ->. discriminate Ha.
Qed.

Lemma apply_updates_codigo {F : Type} {SR : SqliteReal F}
    (address : AddressUpdate.t F) (r : Row.t F) :
  Row.codigo (apply_updates (update_assignments address) r) = Row.codigo r.
Proof. apply apply_updates_identity, update_assignments_not_codigo. Qed.

Lemma sql_update_codes {F : Type} {SR : SqliteReal F}
    (address : AddressUpdate.t F) (c : string) (db : table F) :
  map Row.codigo (sql_update (update_assignments address) c db) = map Row.codigo db.
Proof.
  unfold sql_update. rewrite map_map. apply map_ext. intros r.
  destruct (String.eqb (Row.codigo r) c); [apply apply_updates_codigo | reflexivity].
Qed.

(** Whether a code is stored depends on the codes of the table only. *)
Lemma is_stored_codes {F : Type} (c : string) (db db' : table F) :
  map Row.codigo db' = map Row.codigo db -> is_stored c db' = is_stored c db.
Proof.
  intros H. unfold is_stored.
  destruct (select_by_codigo c db) eqn:E, (select_by_codigo c db') eqn:E'; try reflexivity.
  - apply select_by_codigo_none in E'. rewrite H in E'.
    apply select_by_codigo_none in E'. congruence.
  - apply select_by_codigo_none in E. rewrite <- H in E.
    apply select_by_codigo_none in E. congruence.
Qed.

(** The answer of [update_address] depends on the table only through the
    presence of the code. *)
Lemma update_address_fst {F : Type} {SR : SqliteReal F}
    (c : string) (u : AddressUpdate.t F) (db : table F) :
  fst (update_address c u db)
  = if is_stored c db
    then match update_assignments u with
         | [] => HTTPException 400 "No hay campos para actualizar"
         | _ :: _ =>
             if forallb (fun a => binds (snd a)) (update_assignments u)
             then Raises TypeError
             else Raises OverflowError
         end
    else HTTPException 404 "Dirección no encontrada".
Proof.
  unfold update_address, is_stored. destruct (select_by_codigo c db); [|reflexivity].
  destruct (update_assignments u) as [|a l]; [reflexivity|].
  now destruct (forallb (fun a0 => binds (snd a0)) (a :: l)).
Qed.

(** The table it leaves. *)
Lemma update_address_snd {F : Type} {SR : SqliteReal F}
    (c : string) (u : AddressUpdate.t F) (db : table F) :
  snd (update_address c u db)
  = if is_stored c db && forallb (fun a => binds (snd a)) (update_assignments u)
    then sql_update (update_assignments u) c db
    else db.
Proof.
  unfold update_address, is_stored. destruct (select_by_codigo c db); [|reflexivity].
  destruct (update_assignments u) as [|a l] eqn:E.
  - cbn [snd forallb andb]. unfold sql_update. rewrite <- (map_id db) at 1.
    apply map_ext. intros r. now destruct (String.eqb (Row.codigo r) c).
  - cbn [andb]. now destruct (forallb (fun a0 => binds (snd a0)) (a :: l)).
Qed.

Lemma update_address_fst_after {F : Type} {SR : SqliteReal F}
    (c c' : string) (u u' : AddressUpdate.t F) (db : table F) :
  fst (update_address c u (snd (update_address c' u' db))) = fst (update_address c u db).
Proof.
  rewrite !update_address_fst.
  now rewrite (is_stored_codes c db _ (update_address_codes c' u' db)).
Qed.

Lemma sql_update_twice {F : Type} {SR : SqliteReal F}
    (address : AddressUpdate.t F) (c : string) (db : table F) :
  sql_update (update_assignments address) c (sql_update (update_assignments address) c db)
  = sql_update (update_assignments address) c db.
Proof.
  unfold sql_update. rewrite map_map. apply map_ext. intros r.
  destruct (String.eqb_spec (Row.codigo r) c) as [Er|Er].
  - rewrite apply_updates_codigo.
    destruct (String.eqb_spec (Row.codigo r) c); [|contradiction].
    apply apply_update_assignments_twice.
  - destruct (String.eqb_spec (Row.codigo r) c); [contradiction | reflexivity].
Qed.

(** X6.  Repeating an update changes nothing more: the second identical call
    gives the same answer and leaves the table as the first call left it. *)
Theorem update_address_twice {F : Type} {SR : SqliteReal F}
    (codigo : string) (address : AddressUpdate.t F) (db : table F) :
  update_address codigo address (snd (update_address codigo address db))
  = update_address codigo address db.
Proof.
  apply injective_projections; [apply update_address_fst_after|].
  rewrite (update_address_snd codigo address (snd _)).
  rewrite (is_stored_codes codigo db _ (update_address_codes codigo address db)).
  rewrite (update_address_snd codigo address db).
  destruct (is_stored codigo db
            && forallb (fun a => binds (snd a)) (update_assignments address));
    [apply sql_update_twice | reflexivity].
Qed.

Lemma sql_update_commute {F : Type} {SR : SqliteReal F}
    (u1 u2 : AddressUpdate.t F) (c1 c2 : string) (db : table F) :
  c1 <> c2 ->
  sql_update (update_assignments u1) c1 (sql_update (update_assignments u2) c2 db)
  = sql_update (update_assignments u2) c2 (sql_update (update_assignments u1) c1 db).
Proof.
  intros Hne. unfold sql_update. rewrite !map_map. apply map_ext. intros r.
  destruct (String.eqb_spec (Row.codigo r) c2) as [E2|E2],
           (String.eqb_spec (Row.codigo r) c1) as [E1|E1];
    rewrite ?apply_updates_codigo.
  - congruence.
  - destruct (String.eqb_spec (Row.codigo r) c1); [contradiction|].
    destruct (String.eqb_spec (Row.codigo r) c2); [reflexivity | contradiction].
  - destruct (String.eqb_spec (Row.codigo r) c1); [|contradiction].
    destruct (String.eqb_spec (Row.codigo r) c2); [contradiction | reflexivity].
  - destruct (String.eqb_spec (Row.codigo r) c1); [contradiction|].
    destruct (String.eqb_spec (Row.codigo r) c2); [contradiction | reflexivity].
Qed.

(** X7.  Updates of two different records commute: each is answered the same
    whether or not the other ran first, and both orders leave the same
    table. *)
Theorem update_address_commute {F : Type} {SR : SqliteReal F}
    (c1 c2 : string) (u1 u2 : AddressUpdate.t F) (db : table F) :
  c1 <> c2 ->
  fst (update_address c1 u1 (snd (update_address c2 u2 db)))
  = fst (update_address c1 u1 db)
  /\ fst (update_address c2 u2 (snd (update_address c1 u1 db)))
     = fst (update_address c2 u2 db)
  /\ snd (update_address c1 u1 (snd (update_address c2 u2 db)))
     = snd (update_address c2 u2 (snd (update_address c1 u1 db))).
Proof.
  intros Hne. repeat split; try apply update_address_fst_after.
  rewrite (update_address_snd c1 u1 (snd _)), (update_address_snd c2 u2 (snd _)).
  rewrite (is_stored_codes c1 db _ (update_address_codes c2 u2 db)).
  rewrite (is_stored_codes c2 db _ (update_address_codes c1 u1 db)).
  rewrite (update_address_snd c2 u2 db), (update_address_snd c1 u1 db).
  destruct (is_stored c1 db && forallb (fun a => binds (snd a)) (update_assignments u1)),
           (is_stored c2 db && forallb (fun a => binds (snd a)) (update_assignments u2));
    try reflexivity.
  now apply sql_update_commute.
Qed.

Lemma update_address_commute_witness :
  snd (update_address "VG-MAO-C-00001"
         (AddressUpdate.mk "" Unset Unset Unset (Value "Calle Duarte") Unset
            Unset Unset Unset Unset Unset Unset Unset)
         (snd (update_address "VG-MAO-J-00001"
                 (AddressUpdate.mk "" Unset Unset Unset Unset Unset
                    Unset Unset Unset (Value 1%Z) Unset Unset Unset)
                 sample_db2)))
  = snd (update_address "VG-MAO-J-00001"
           (AddressUpdate.mk "" Unset Unset Unset Unset Unset
              Unset Unset Unset (Value 1%Z) Unset Unset Unset)
           (snd (update_address "VG-MAO-C-00001"
                   (AddressUpdate.mk "" Unset Unset Unset (Value "Calle Duarte") Unset
                      Unset Unset Unset Unset Unset Unset Unset)
                   sample_db2))).
Proof.
  refine (proj2 (proj2 (update_address_commute _ _ _ _ sample_db2 _))).
  discriminate.
Defined.

(** ** Invariants of every reachable table *)

(** X8.  The codes of the records of every reachable table are pairwise
    distinct. *)
Theorem reachable_codes_unique {F : Type} {SR : SqliteReal F} (rqs : list (request F)) :
  NoDup (map Row.codigo (serve rqs [])).
Proof. apply serve_unique. constructor. Qed.

Lemma row_identity_updated {F : Type} {SR : SqliteReal F}
    (address : AddressUpdate.t F) (r : Row.t F) :
  row_identity (apply_updates (update_assignments address) r) = row_identity r.
Proof.
  unfold row_identity.
  destruct (apply_updates_identity (update_assignments address) r) as (E1 & E2 & E3);
    [apply update_assignments_not_codigo|].
  now rewrite E1, E2, E3.
Qed.

Lemma handle_identities {F : Type} {SR : SqliteReal F} (rq : request F) (db : table F) :
  exists added, map row_identity (handle db rq) = (map row_identity db ++ added)%list.
Proof.
  destruct rq as [now address | codigo address]; simpl.
  - destruct (insert_address_table now address db) as [-> | (_ & _ & ->)].
    + exists []. now rewrite app_nil_r.
    + eexists. now rewrite map_app.
  - exists []. rewrite app_nil_r.
    destruct (update_address_table codigo address db) as [-> | ->]; [reflexivity|].
    unfold sql_update. rewrite map_map. apply map_ext. intros r.
    destruct (String.eqb (Row.codigo r) codigo);
      [apply row_identity_updated | reflexivity].
Qed.

(** X9.  No sequence of inserts and updates deletes a record, reorders the
    table or changes the id, the code or the creation time of a record: the
    identities of the table before are a prefix of those after. *)
Theorem serve_keeps_identities {F : Type} {SR : SqliteReal F}
    (rqs : list (request F)) (db : table F) :
  exists added, map row_identity (serve rqs db) = (map row_identity db ++ added)%list.
Proof.
  unfold serve. revert db. induction rqs as [|rq rqs IH]; intros db; simpl.
  - exists []. now rewrite app_nil_r.
  - destruct (IH (handle db rq)) as [added2 E2].
    destruct (handle_identities rq db) as [added1 E1].
    exists (added1 ++ added2)%list. now rewrite E2, E1, app_assoc.
Qed.

Lemma set_column_sector {F : Type} {SR : SqliteReal F} (address : AddressUpdate.t F)
    (a : column * cell F) (r : Row.t F) :
  In a (update_assignments address) ->
  Row.sector r <> None -> Row.sector (set_column a r) <> None.
Proof.
  destruct a as [c v]. intros Hin Hr.
  apply in_update_assignments in Hin as [_ Hg].
  destruct r as [i cod prov mun sec cal num ref la ln ver fue cre nota fec].
  destruct c; simpl in *; try assumption.
  destruct (AddressUpdate.sector address); try discriminate.
  injection Hg as <-. discriminate.
Qed.

Lemma apply_updates_sector {F : Type} {SR : SqliteReal F} (address : AddressUpdate.t F)
    (updates : list (column * cell F)) (r : Row.t F) :
  (forall a, In a updates -> In a (update_assignments address)) ->
  Row.sector r <> None -> Row.sector (apply_updates updates r) <> None.
Proof.
  unfold apply_updates. revert r.
  induction updates as [|a updates IH]; intros r Hsub Hr; simpl; [assumption|].
  apply IH; [intros; apply Hsub; now right|].
  apply (set_column_sector address); [apply Hsub; now left | assumption].
Qed.

(** X10.  In every reachable table every record has a sector: the column is
    never NULL, since an insert requires it and an update skips nulls. *)
Theorem reachable_sector_present {F : Type} {SR : SqliteReal F} (rqs : list (request F)) :
  Forall (fun r => Row.sector r <> None) (serve rqs []).
Proof.
  assert (G : forall db : table F,
             Forall (fun r => Row.sector r <> None) db ->
             Forall (fun r => Row.sector r <> None) (serve rqs db)).
  { unfold serve. induction rqs as [|rq rqs IH]; intros db Hdb; [assumption|].
    simpl. apply IH. destruct rq as [now address | codigo address]; simpl.
    - destruct (insert_address_table now address db) as [-> | (_ & _ & ->)];
        [assumption|].
      apply Forall_app. split; [assumption|].
      constructor; [discriminate | constructor].
    - destruct (update_address_table codigo address db) as [-> | ->]; [assumption|].
      unfold sql_update. apply Forall_map. revert Hdb. apply Forall_impl.
      intros r Hr. destruct (String.eqb (Row.codigo r) codigo); [|assumption].
      now apply (apply_updates_sector address). }
  apply G. constructor.
Qed.

Lemma max_id_consecutive (n a : nat) :
  fold_right N.max 0 (map N.of_nat (seq a n))
  = if (n =? 0)%nat then 0 else N.of_nat (a + n - 1).
Proof.
  revert a. induction n as [|n IH]; intros a; [reflexivity|].
  cbn [seq map fold_right]. rewrite IH.
  destruct n as [|n]; cbn [Nat.eqb]; lia.
Qed.

Lemma next_id_consecutive {F : Type} (db : table F) :
  map Row.id db = map N.of_nat (seq 1 (List.length db)) ->
  next_id db = N.of_nat (List.length db) + 1.
Proof.
  intros H. unfold next_id.
  replace (fold_right (fun r m => N.max (Row.id r) m) 0 db)
    with (fold_right N.max 0 (map Row.id db))
    by (clear H; induction db as [|r db IH]; simpl; congruence).
  rewrite H, max_id_consecutive.
  destruct (List.length db); cbn [Nat.eqb]; lia.
Qed.

(** X11.  In every reachable table the ids are 1, 2, ..., n in insertion
    order. *)
Theorem reachable_ids {F : Type} {SR : SqliteReal F} (rqs : list (request F)) :
  map Row.id (serve rqs []) = map N.of_nat (seq 1 (List.length (serve rqs []))).
Proof.
  assert (G : forall db : table F,
             map Row.id db = map N.of_nat (seq 1 (List.length db)) ->
             map Row.id (serve rqs db)
             = map N.of_nat (seq 1 (List.length (serve rqs db)))).
  { unfold serve. induction rqs as [|rq rqs IH]; intros db Hdb; [assumption|].
    simpl. apply IH. destruct rq as [now address | codigo address]; simpl.
    - destruct (insert_address_table now address db) as [-> | (_ & _ & ->)];
        [assumption|].
      rewrite map_app, length_app, seq_app, map_app, <- Hdb.
      cbn [map inserted_row Row.id List.length seq].
      rewrite (next_id_consecutive db Hdb). do 2 f_equal. lia.
    - destruct (update_address_table codigo address db) as [-> | ->]; [assumption|].
      unfold sql_update. rewrite map_map, length_map, <- Hdb. apply map_ext.
      intros r. destruct (String.eqb (Row.codigo r) codigo); [|reflexivity].
      apply apply_updates_identity, update_assignments_not_codigo. }
  apply G. reflexivity.
Qed.

Lemma set_column_int64 {F : Type} {SR : SqliteReal F} (a : column * cell F) (r : Row.t F) :
  binds (snd a) = true -> row_int64 r = true -> row_int64 (set_column a r) = true.
Proof.
  destruct a as [c v], r as [i cod prov mun sec cal num ref la ln ver fue cre nota fec].
  unfold row_int64. destruct c; simpl; try (intros _ H; exact H).
  destruct v; simpl; intros H _; first [reflexivity | exact H].
Qed.

Lemma apply_updates_int64 {F : Type} {SR : SqliteReal F}
    (updates : list (column * cell F)) (r : Row.t F) :
  forallb (fun a => binds (snd a)) updates = true ->
  row_int64 r = true -> row_int64 (apply_updates updates r) = true.
Proof.
  unfold apply_updates. revert r.
  induction updates as [|a updates IH]; intros r H Hr; simpl; [assumption|].
  simpl in H. apply andb_true_iff in H as [Ha H].
  apply IH; [assumption|]. now apply set_column_int64.
Qed.

Lemma serve_int64 {F : Type} {SR : SqliteReal F} (rqs : list (request F)) (db : table F) :
  Forall (fun r => row_int64 r = true) db ->
  Forall (fun r => row_int64 r = true) (serve rqs db).
Proof.
  unfold serve. revert db; induction rqs as [|rq rqs IH]; intros db H; [assumption|].
  simpl. apply IH. destruct rq as [now address | codigo address]; simpl.
  - destruct (insert_address_table now address db) as [-> | (_ & Hb & ->)]; [assumption|].
    apply Forall_app. split; [assumption|].
    constructor; [exact Hb | constructor].
  - rewrite update_address_snd.
    destruct (forallb (fun a => binds (snd a)) (update_assignments address)) eqn:Hb;
      [|now rewrite andb_false_r].
    destruct (is_stored codigo db); [|assumption]. cbn [andb].
    unfold sql_update. apply Forall_map. revert H. apply Forall_impl.
    intros r Hr. destruct (String.eqb (Row.codigo r) codigo); [|assumption].
    now apply apply_updates_int64.
Qed.

(** X23.  In every reachable table of binary64 coordinates, every stored
    [verificado] is NULL or fits in a signed 64-bit integer, and no stored
    coordinate is a NaN or the negative zero. *)
Theorem reachable_values (rqs : list (request float)) :
  Forall
    (fun r =>
       binds_int (Row.verificado r) = true
       /\ forall y, Row.lat r = Some y \/ Row.lng r = Some y ->
                    PrimFloat.is_nan y = false
                    /\ (PrimFloat.eqb y 0 = true -> y = 0%float))
    (serve rqs []).
Proof.
  pose proof (serve_int64 rqs [] (Forall_nil _)) as Hint.
  pose proof (serve_held rqs [] (Forall_nil _)) as Hheld.
  rewrite Forall_forall in *. intros r Hr. split; [exact (Hint r Hr)|].
  destruct (Hheld r Hr) as [Hla Hln].
  assert (G : forall y, float_bind_real y = Some y ->
                        PrimFloat.is_nan y = false
                        /\ (PrimFloat.eqb y 0 = true -> y = 0%float)).
  { intros y. unfold float_bind_real.
    destruct (PrimFloat.is_nan y); [discriminate|].
    destruct (PrimFloat.eqb y 0); intros H; split; try reflexivity; try discriminate.
    intros _. now injection H. }
  intros y [E|E]; apply G.
  - rewrite E in Hla. exact Hla.
  - rewrite E in Hln. exact Hln.
Qed.

(** ** [get_addresses] with any query *)

(** What [get_addresses] answers: the limited, ordered rows that pass some
    test, or an exception for one of two reasons. *)
Lemma get_addresses_shape {F : Type} (q : option string) (limit : option Z) (db : table F) :
  (exists keep : Row.t F -> bool,
     get_addresses q limit db
     = Returns (sql_limit (limit_or_default limit)
                  (order_by_fecha_desc (filter keep db))))
  \/ (get_addresses q limit db = Unhandled
      /\ (fits_int64 (limit_or_default limit) = false
          \/ exists s, q = Some s /\ pattern_too_long ("%" ++ py_lower s ++ "%") = true)).
Proof.
  unfold get_addresses.
  destruct (fits_int64 (limit_or_default limit)); cbn [negb]; [|right; auto].
  destruct q as [[|c q]|].
  - left. exists (fun _ => true). now rewrite filter_all.
  - destruct (pattern_too_long _) eqn:E; cbn [andb].
    + destruct (reads_a_row _ db).
      * right. split; [reflexivity|]. right. eauto.
      * left. eexists. reflexivity.
    + left. eexists. reflexivity.
  - left. exists (fun _ => true). now rewrite filter_all.
Qed.

Lemma Sorted_firstn {A : Type} (R : A -> A -> Prop) (n : nat) (l : list A) :
  Sorted R l -> Sorted R (firstn n l).
Proof.
  intros H; revert n. induction H as [|x l Hl IH Hx]; intros [|n]; simpl;
    try constructor.
  - apply IH.
  - destruct Hx as [|y l Hxy]; destruct n; simpl; constructor. assumption.
Qed.

Lemma In_firstn {A : Type} (n : nat) (l : list A) (x : A) :
  In x (firstn n l) -> In x l.
Proof.
  intros H. rewrite <- (firstn_skipn n l). apply in_or_app. now left.
Qed.

(** X12.  Whatever the query, wildcards included, and whatever the limit,
    what [get_addresses] returns are stored records only, most recent first,
    and at most [limit] of them unless the limit is negative.  It never
    answers 404, and it raises only for a limit outside 64 bits or a pattern
    of more than 50000 bytes. *)
Theorem get_addresses_bounded {F : Type}
    (q : option string) (limit : option Z) (db : table F) :
  match get_addresses q limit db with
  | Returns rows =>
      (forall r, In r rows -> In r db)
      /\ Sorted newer_or_equal rows
      /\ ((limit_or_default limit <? 0)%Z = true
          \/ (Z.of_nat (List.length rows) <= limit_or_default limit)%Z)
  | NotFound _ => False
  | Unhandled =>
      fits_int64 (limit_or_default limit) = false
      \/ exists s, q = Some s /\ pattern_too_long ("%" ++ py_lower s ++ "%") = true
  end.
Proof.
  destruct (get_addresses_shape q limit db) as [(keep & ->) | (-> & H)]; [|exact H].
  destruct (order_by_fecha_desc_sorted (filter keep db)) as [Hs Hp].
  unfold sql_limit. destruct (Z.ltb_spec (limit_or_default limit) 0) as [Hneg|Hpos].
  - repeat split; [|assumption | now left].
    intros r Hr. apply (Permutation_in _ Hp) in Hr. now apply filter_In in Hr.
  - repeat split.
    + intros r Hr. apply In_firstn in Hr.
      apply (Permutation_in _ Hp) in Hr. now apply filter_In in Hr.
    + now apply Sorted_firstn.
    + right. rewrite length_firstn. lia.
Qed.

(** A [%] in front of a pattern lets the match start later. *)
Lemma like_match_skip (p : string) (c : ascii) (t : string) :
  like_match (String "%" p) t = true -> like_match (String "%" p) (String c t) = true.
Proof. intros H. rewrite like_match_percent, H. apply orb_true_r. Qed.

Lemma like_match_percent_here (p t : string) :
  like_match p t = true -> like_match (String "%" p) t = true.
Proof. intros H. now rewrite like_match_percent, H. Qed.

(** Any text that starts like [p], letters compared without case, matches
    the pattern [p%], whether or not [p] contains wildcards. *)
Lemma like_match_prefix_any (p t : string) :
  ci_prefix p t = true -> like_match (p ++ "%") t = true.
Proof.
  revert t; induction p as [|a p IH]; intros t H.
  - apply like_match_any.
  - destruct t as [|b t]; [discriminate|].
    cbn [ci_prefix] in H. apply andb_true_iff in H as [Hab Hp].
    specialize (IH t Hp). cbn [String.append].
    destruct (Ascii.eqb a "%") eqn:E1.
    + apply Ascii.eqb_eq in E1. subst a.
      apply like_match_skip, like_match_percent_here, IH.
    + cbn [like_match]. rewrite E1.
      destruct (Ascii.eqb a "_"); [exact IH|].
      now rewrite Hab, IH.
Qed.


(** Every pattern matches itself. *)
Lemma like_match_self (p : string) : like_match p p = true.
Proof.
  induction p as [|a p IH]; [reflexivity|].
  destruct (Ascii.eqb a "%") eqn:E1.
  - apply Ascii.eqb_eq in E1. subst a.
    apply like_match_skip, like_match_percent_here, IH.
  - cbn [like_match]. rewrite E1.
    destruct (Ascii.eqb a "_"); [exact IH|].
    now rewrite Ascii.eqb_refl, IH.
Qed.

Lemma ci_prefix_self (p s : string) : ci_prefix p (p ++ s) = true.
Proof.
  induction p as [|a p IH]; [reflexivity|]. simpl. now rewrite Ascii.eqb_refl.
Qed.

(** A text that starts with [p] is LIKE [p%], whatever [p] contains. *)
Lemma sql_like_prefix_self (p s : string) : sql_like (p ++ "%") (p ++ s) = true.
Proof.
  unfold sql_like. rewrite !c_string_append. destruct (no_nul p).
  - apply like_match_prefix_any, ci_prefix_self.
  - apply like_match_self.
Qed.







(** ** Inserts, listings and sequence numbers *)

Lemma insert_desc_newest {F : Type} (r : Row.t F) (l : list (Row.t F)) :
  Forall (fun x => Row.fecha_creacion x < Row.fecha_creacion r) l ->
  insert_desc r l = r :: l.
Proof.
  intros H. destruct H as [|x l Hx _]; [reflexivity|].
  simpl. destruct (N.ltb_spec (Row.fecha_creacion x) (Row.fecha_creacion r));
    [reflexivity | lia].
Qed.

(** X14.  A record inserted with a [verificado] that fits in 64 bits, at an
    instant later than every stored creation time, comes first in the
    unfiltered listing, for every limit that fits in 64 bits and is not
    zero. *)
Theorem insert_listed_first {F : Type} {SR : SqliteReal F}
    (now : N) (address : Address.t F) (db : table F) (limit : option Z) :
  ~ In (insert_codigo (count_like db) address) (map Row.codigo db) ->
  binds_int (Address.verificado address) = true ->
  Forall (fun r => Row.fecha_creacion r < now) db ->
  limit_or_default limit <> 0%Z ->
  fits_int64 (limit_or_default limit) = true ->
  exists rest,
    get_addresses None limit (snd (insert_address now address db))
    = Returns
        (inserted_row now (insert_codigo (count_like db) address) address db :: rest).
Proof.
  intros Hnew Hbind Hold Hlimit Hfit. apply select_by_codigo_none in Hnew.
  unfold insert_address. rewrite Hbind, Hnew. cbn [negb snd].
  set (row := inserted_row now _ address db).
  unfold get_addresses. rewrite Hfit. cbn [negb].
  unfold order_by_fecha_desc. rewrite fold_left_app. cbn [fold_left].
  fold (order_by_fecha_desc db).
  rewrite insert_desc_newest.
  - unfold sql_limit. destruct (Z.ltb_spec (limit_or_default limit) 0); [eauto|].
    destruct (Z.to_nat (limit_or_default limit)) as [|k] eqn:E; [lia|].
    simpl. eauto.
  - destruct (order_by_fecha_desc_sorted db) as [_ Hp].
    apply Forall_forall. intros x Hx. apply (Permutation_in _ Hp) in Hx.
    rewrite Forall_forall in Hold. now apply Hold.
Qed.

Lemma insert_listed_first_witness :
  exists rest,
    get_addresses None (Some 1%Z)
      (snd (insert_address 101
              (Address.minimal "Los Jardines" 18.75%float (-71.5)%float) sample_db))
    = Returns
        (inserted_row 101 "VG-MAO-J-00001"
           (Address.minimal "Los Jardines" 18.75%float (-71.5)%float) sample_db :: rest).
Proof.
  apply (insert_listed_first 101
           (Address.minimal "Los Jardines" 18.75%float (-71.5)%float) sample_db (Some 1%Z)).
  - vm_compute. intros [H|[]]. discriminate H.
  - reflexivity.
  - repeat constructor.
  - discriminate.
  - reflexivity.
Defined.

Lemma count_like_app {F : Type} (db : table F) (r : Row.t F) (pattern : string) :
  count_like (db ++ [r])%list pattern
  = count_like db pattern + (if sql_like pattern (Row.codigo r) then 1 else 0).
Proof.
  unfold count_like. rewrite filter_app, length_app. simpl.
  destruct (sql_like pattern (Row.codigo r)); simpl; lia.
Qed.

(** The pattern of the COUNT query is far below the length LIKE accepts. *)
Lemma count_pattern_short (sector : string) :
  pattern_too_long (code_prefix sector ++ "%") = false.
Proof.
  assert (Hlen : forall s, utf8_length s <= 2 * N.of_nat (String.length s)).
  { induction s as [|c s IH]; simpl String.length; cbn [utf8_length]; [lia|].
    destruct (N_of_ascii c <? 128); lia. }
  unfold pattern_too_long, code_prefix. apply N.ltb_ge.
  rewrite !utf8_length_append.
  pose proof (Hlen (abbreviation sector)) as H.
  assert (Ha : (String.length (abbreviation sector) <= 5)%nat).
  { unfold abbreviation. pose proof (sector_words_nonempty sector) as Hw.
    destruct (sector_words sector) as [|w ws]; [simpl; lia|].
    rewrite take_initials by assumption. rewrite initials_length.
    - rewrite length_firstn. lia.
    - apply Forall_forall. intros t Ht. rewrite Forall_forall in Hw.
      apply Hw. now apply (In_firstn 5). }
  change (utf8_length "VG-MAO-") with 7. change (utf8_length "-") with 1.
  change (utf8_length "%") with 1. lia.
Qed.

(** X15.  A committed insert with a generated code, one whose [verificado]
    fits in 64 bits, raises the prefix count of its sector by exactly one, so
    the next code generated for that sector carries the next sequence
    number. *)
Theorem generated_insert_advances {F : Type} {SR : SqliteReal F}
    (now : N) (address : Address.t F) (db : table F) :
  Address.codigo address = None \/ Address.codigo address = Some "" ->
  ~ In (insert_codigo (count_like db) address) (map Row.codigo db) ->
  binds_int (Address.verificado address) = true ->
  let pattern := code_prefix (Address.sector address) ++ "%" in
  let db' := snd (insert_address now address db) in
  count_like db' pattern = count_like db pattern + 1
  /\ generate_codigo (count_like db') (Address.sector address)
     = code_prefix (Address.sector address)
         ++ zfill 5 (str_of_N (count_like db pattern + 2)).
Proof.
  intros Hcode Hnew Hbind pattern db'.
  assert (Hcount : count_like db' pattern = count_like db pattern + 1).
  { subst db'. apply select_by_codigo_none in Hnew.
    unfold insert_address. rewrite Hbind, Hnew. cbn [negb snd].
    rewrite count_like_app. cbn [inserted_row Row.codigo].
    replace (insert_codigo (count_like db) address)
      with (generate_codigo (count_like db) (Address.sector address))
      by (unfold insert_codigo; destruct Hcode as [-> | ->]; reflexivity).
    unfold generate_codigo. subst pattern.
    now rewrite sql_like_prefix_self. }
  split; [assumption|].
  unfold generate_codigo. fold pattern. rewrite Hcount.
  do 3 f_equal. lia.
Qed.

Lemma generated_insert_advances_witness :
  count_like (snd (insert_address 101 sample_address sample_db)) "VG-MAO-C-%" = 2
  /\ generate_codigo (count_like (snd (insert_address 101 sample_address sample_db)))
       "Centro"
     = "VG-MAO-C-00003".
Proof.
  apply (generated_insert_advances 101 sample_address sample_db).
  - left. reflexivity.
  - vm_compute. intros [H|[]]. discriminate H.
  - reflexivity.
Defined.

(** ** Codes and counts, continued *)

(** X16.  For one sector, equal generated codes come from equal counts:
    different counts always give different codes, beyond 99999 too. *)
Theorem generate_codigo_injective (count_like count_like' : string -> N) (sector : string) :
  generate_codigo count_like sector = generate_codigo count_like' sector ->
  count_like (code_prefix sector ++ "%") = count_like' (code_prefix sector ++ "%").
Proof.
  unfold generate_codigo. intros H. apply append_cancel_l in H.
  apply (f_equal (decimal_value 0)) in H. rewrite !decimal_value_sequence in H. lia.
Qed.

Lemma generate_codigo_injective_witness :
  (fun _ : string => 6) ("VG-MAO-SJ-" ++ "%")
  = (fun p => N.of_nat (String.length p) - 5) ("VG-MAO-SJ-" ++ "%").
Proof.
  apply (generate_codigo_injective (fun _ => 6)
           (fun p => N.of_nat (String.length p) - 5) "Sector Los Jardines").
  reflexivity.
Defined.

(** X17.  For every sector the abbreviation has between one and five
    characters. *)
Theorem abbreviation_length (sector : string) :
  (1 <= String.length (abbreviation sector) <= 5)%nat.
Proof.
  unfold abbreviation. pose proof (sector_words_nonempty sector) as Hw.
  destruct (sector_words sector) as [|w ws]; [simpl; lia|].
  rewrite take_initials by assumption. rewrite initials_length.
  - rewrite length_firstn. cbn [List.length]. lia.
  - apply Forall_forall. intros t Ht. rewrite Forall_forall in Hw.
    apply Hw. now apply (In_firstn 5).
Qed.

(** ** Letter case of the sector *)

Section CaseMap.
Variable f : ascii -> ascii.
Hypothesis f_space : forall c, isspace (f c) = isspace c.
Hypothesis f_lower : forall c, lower_char (f c) = lower_char c.
Hypothesis f_upper : forall c, upper_char (f c) = upper_char c.

Lemma str_map_append (a b : string) : str_map f (a ++ b) = str_map f a ++ str_map f b.
Proof. induction a as [|c a IH]; simpl; [reflexivity | now rewrite IH]. Qed.

Lemma split_from_map (w s : string) :
  split_from (str_map f w) (str_map f s) = map (str_map f) (split_from w s).
Proof.
  revert w; induction s as [|c s IH]; intros w; simpl.
  - destruct w; reflexivity.
  - rewrite f_space. destruct (isspace c).
    + destruct w; simpl; [apply (IH "") | f_equal; apply (IH "")].
    + rewrite <- IH, str_map_append. reflexivity.
Qed.

Lemma lower_map (w : string) : lower (str_map f w) = lower w.
Proof.
  unfold lower. induction w as [|c w IH]; simpl; [reflexivity|].
  now rewrite f_lower, IH.
Qed.

Lemma sector_words_map (sector : string) :
  sector_words (str_map f sector) = map (str_map f) (sector_words sector).
Proof.
  unfold sector_words, split. change "" with (str_map f "") at 1.
  rewrite split_from_map.
  induction (split_from "" sector) as [|w ws IH]; simpl; [reflexivity|].
  rewrite lower_map. destruct (in_stop_words (lower w)); simpl; now rewrite IH.
Qed.

Lemma abbreviation_map (sector : string) :
  abbreviation (str_map f sector) = abbreviation sector.
Proof.
  unfold abbreviation. rewrite sector_words_map.
  destruct (sector_words sector) as [|w ws]; [reflexivity|].
  cbn [map]. rewrite map_map.
  replace (initial_upper (str_map f w)) with (initial_upper w)
    by (destruct w; simpl; now rewrite ?f_upper).
  do 3 f_equal. apply map_ext. intros t. destruct t; simpl; now rewrite ?f_upper.
Qed.

End CaseMap.

Lemma lower_char_facts (c : ascii) :
  isspace (lower_char c) = isspace c /\ upper_char (lower_char c) = upper_char c.
Proof. destruct c as [[] [] [] [] [] [] [] []]; split; reflexivity. Qed.

Lemma abbreviation_lower (sector : string) : abbreviation (lower sector) = abbreviation sector.
Proof.
  apply (abbreviation_map lower_char).
  - intros c. apply lower_char_facts.
  - apply lower_char_idem.
  - intros c. apply lower_char_facts.
Qed.

(** X18.  The generated code ignores letter case: two sectors that differ
    only in the case of their ASCII letters get the same code for the same
    counter. *)
Theorem generate_codigo_case (count_like : string -> N) (sector sector' : string) :
  lower sector = lower sector' ->
  generate_codigo count_like sector = generate_codigo count_like sector'.
Proof.
  intros H. unfold generate_codigo, code_prefix.
  now rewrite <- (abbreviation_lower sector), <- (abbreviation_lower sector'), H.
Qed.

Lemma generate_codigo_case_witness :
  generate_codigo (fun _ => 6) "sector LOS jardines"
  = generate_codigo (fun _ => 6) "Sector Los Jardines".
Proof. apply generate_codigo_case. reflexivity. Defined.

(** ** [estimate_ride]: failures and the minimum duration *)



(** A list as pickup code makes the handler raise, not answer 404; an
    integer is compared as its decimal text. *)
Example estimate_ride_codes :
  (forall PF : PyFloat float,
     @estimate_ride float PF JArray (JString "VG-MAO-C-00001") sample_db = Unhandled)
  /\ (forall PF : PyFloat float,
        @estimate_ride float PF (JInt 7) JNull sample_db
        = NotFound "Dirección no encontrada")
  /\ (forall PF : PyFloat float,
        @estimate_ride float PF (JInt (2 ^ 63)) JNull sample_db = Unhandled).
Proof. repeat split; intros PF; reflexivity. Qed.

(** X20.  Whatever the float arithmetic, a returned estimate never has fewer
    than 3 minutes. *)
Theorem estimate_ride_minutes {F : Type} {PF : PyFloat F}
    (pickup_codigo dropoff_codigo : json F) (db : table F) :
  match estimate_ride pickup_codigo dropoff_codigo db with
  | Returns result => (3 <= Estimate.estimated_minutes result)%Z
  | _ => True
  end.
Proof.
  unfold estimate_ride.
  destruct (code_param pickup_codigo) as [p|], (code_param dropoff_codigo) as [d|];
    try exact I.
  destruct (select_lat_lng p db) as [pp|], (select_lat_lng d db) as [dd|]; try exact I.
  destruct (haversine_km pp dd) as [km|]; [|exact I].
  destruct (fare_of km) as [result|] eqn:E; [|exact I].
  now apply (fare_of_minutes km).
Qed.

(** ** [get_sectors] *)

Lemma ascii_compare_lt_trans (a b c : ascii) :
  Ascii.compare a b = Lt -> Ascii.compare b c = Lt -> Ascii.compare a c = Lt.
Proof.
  unfold Ascii.compare. rewrite !N.compare_lt_iff. lia.
Qed.

Lemma string_compare_lt_trans (x y z : string) :
  String.compare x y = Lt -> String.compare y z = Lt -> String.compare x z = Lt.
Proof.
  revert y z; induction x as [|a x IH]; intros [|b y] [|c z]; simpl;
    try discriminate; try reflexivity.
  destruct (Ascii.compare a b) eqn:Eab; try discriminate;
    destruct (Ascii.compare b c) eqn:Ebc; try discriminate; intros H1 H2.
  - apply Ascii.compare_eq_iff in Eab, Ebc. subst.
    rewrite (proj2 (N.compare_eq_iff _ _) eq_refl : Ascii.compare c c = Eq).
    now apply (IH y z).
  - apply Ascii.compare_eq_iff in Eab. subst. now rewrite Ebc.
  - apply Ascii.compare_eq_iff in Ebc. subst. now rewrite Eab.
  - now rewrite (ascii_compare_lt_trans a b c).
Qed.

Lemma sector_compare_lt_trans (x y z : option string) :
  sector_compare x y = Lt -> sector_compare y z = Lt -> sector_compare x z = Lt.
Proof.
  destruct x, y, z; simpl; try discriminate; try reflexivity.
  apply string_compare_lt_trans.
Qed.

Lemma sector_compare_eq (x y : option string) : sector_compare x y = Eq -> x = y.
Proof.
  destruct x, y; simpl; try discriminate; [|reflexivity].
  intros H. f_equal. now apply String.compare_eq_iff.
Qed.

Lemma sector_compare_gt (x y : option string) :
  sector_compare x y = Gt -> sector_compare y x = Lt.
Proof.
  destruct x, y; simpl; try discriminate; try reflexivity.
  rewrite String.compare_antisym. now destruct (String.compare s0 s).
Qed.

Lemma insert_distinct_In (x y : option string) (l : list (option string)) :
  In y (insert_distinct x l) <-> y = x \/ In y l.
Proof.
  induction l as [|z l IH]; simpl; [intuition congruence|].
  destruct (sector_compare x z) eqn:E; simpl.
  - apply sector_compare_eq in E. subst z. intuition congruence.
  - intuition congruence.
  - rewrite IH. intuition congruence.
Qed.

Lemma insert_distinct_sorted (x : option string) (l : list (option string)) :
  StronglySorted (fun a b => sector_compare a b = Lt) l ->
  StronglySorted (fun a b => sector_compare a b = Lt) (insert_distinct x l).
Proof.
  induction 1 as [|z l Hl IH Hz]; simpl; [repeat constructor|].
  destruct (sector_compare x z) eqn:E.
  - now constructor.
  - constructor; [now constructor|]. constructor; [assumption|].
    revert Hz. apply Forall_impl. intros a. now apply sector_compare_lt_trans.
  - constructor; [assumption|]. apply Forall_forall. intros a Ha.
    apply insert_distinct_In in Ha as [->|Ha].
    + now apply sector_compare_gt.
    + rewrite Forall_forall in Hz. now apply Hz.
Qed.

(** X21.  [get_sectors] lists exactly the sectors of the stored records,
    each once, in strictly ascending order. *)
Theorem get_sectors_spec {F : Type} (db : table F) :
  (forall x, In x (get_sectors db) <-> In x (map Row.sector db))
  /\ StronglySorted (fun a b => sector_compare a b = Lt) (get_sectors db).
Proof.
  unfold get_sectors.
  assert (G : forall acc : list (option string),
             StronglySorted (fun a b => sector_compare a b = Lt) acc ->
             (forall x, In x (fold_left (fun acc r => insert_distinct (Row.sector r) acc) db acc)
                        <-> In x acc \/ In x (map Row.sector db))
             /\ StronglySorted (fun a b => sector_compare a b = Lt)
                  (fold_left (fun acc r => insert_distinct (Row.sector r) acc) db acc)).
  { induction db as [|r db IH]; intros acc Hacc; simpl.
    - split; [tauto | assumption].
    - destruct (IH (insert_distinct (Row.sector r) acc)) as [Hin Hs];
        [now apply insert_distinct_sorted|].
      split; [|assumption]. intros x. rewrite Hin, insert_distinct_In.
      intuition congruence. }
  destruct (G [] (SSorted_nil _)) as [Hin Hs]. split; [|assumption].
  intros x. rewrite Hin. simpl. tauto.
Qed.

Example get_sectors_example :
  get_sectors sample_db2 = [Some "Centro"; Some "Los Jardines"].
Proof. reflexivity. Qed.
